(** * azfile: parsing and rebuilding share, directory and file URLs

    A shallow embedding of [2017-07-29/azfile/parsing_urls.go] and of the
    parts of Go's standard library it calls ([strings], [net], [net/url]),
    followed by the properties of the parse/build pair.

    Go strings are byte sequences: they are [string]s here, one [ascii]
    per byte.  Go [int]s are [Z].  An index or slice expression that is out
    of range panics in Go; in the code of the package itself such an
    expression yields [None], so that the absence of panics is a theorem
    and not an assumption.  The standard library is modelled on the Go
    release the package was written against (1.10). *)

From Stdlib Require Import ZArith Ascii String.
From stdpp Require Import base option list strings gmap fin_maps sorting.

Local Open Scope Z_scope.

(** ** Bytes and strings *)

Definition byte (c : ascii) : Z := Z.of_N (N_of_ascii c).

Definition len (s : string) : Z := Z.of_nat (String.length s).

Fixpoint dropBytes (n : nat) (s : string) : string :=
  match n, s with
  | O, _ => s
  | S _, EmptyString => EmptyString
  | S n, String _ s => dropBytes n s
  end.

Fixpoint takeBytes (n : nat) (s : string) : string :=
  match n, s with
  | O, _ => EmptyString
  | S _, EmptyString => EmptyString
  | S n, String c s => String c (takeBytes n s)
  end.

(** [s[i]]: [None] stands for the run-time panic. *)
Definition byteAt (s : string) (i : Z) : option ascii :=
  if bool_decide (0 ≤ i) then String.get (Z.to_nat i) s else None.

(** [s[lo:hi]]: [None] stands for the run-time panic. *)
Definition slice (s : string) (lo hi : Z) : option string :=
  if bool_decide (0 ≤ lo ∧ lo ≤ hi ∧ hi ≤ len s)
  then Some (takeBytes (Z.to_nat (hi - lo)) (dropBytes (Z.to_nat lo) s))
  else None.

(** [s[lo:]] and [s[:hi]]. *)
Definition sliceFrom (s : string) (lo : Z) : option string := slice s lo (len s).
Definition sliceTo (s : string) (hi : Z) : option string := slice s 0 hi.

(** Inside the standard library every index is guarded by the library
    itself; its code is written with the total variants. *)
Definition at' (s : string) (i : Z) : ascii := default "000"%char (byteAt s i).
Definition sub (s : string) (lo hi : Z) : string := default "" (slice s lo hi).
Definition subFrom (s : string) (lo : Z) : string := sub s lo (len s).
Definition subTo (s : string) (hi : Z) : string := sub s 0 hi.

Definition byteIn (lo c hi : ascii) : bool :=
  (byte lo <=? byte c) && (byte c <=? byte hi).

(** ** Package [strings] *)
Module strings.

(** [strings.Index(s, substr)]: the index of the first instance of
    [substr] in [s], or [-1]. *)
Fixpoint Index (s substr : string) : Z :=
  if String.prefix substr s then 0
  else match s with
       | EmptyString => -1
       | String _ s' =>
           let i := Index s' substr in
           if i =? -1 then -1 else i + 1
       end.

Definition containsByte (chars : string) (c : ascii) : bool :=
  bool_decide (c ∈ list_ascii_of_string chars).

(** [strings.IndexAny(s, chars)]: the index of the first byte of [s]
    that is one of [chars], or [-1] (for [chars] within ASCII). *)
Fixpoint IndexAny (s chars : string) : Z :=
  match s with
  | EmptyString => -1
  | String c s' =>
      if containsByte chars c then 0
      else let i := IndexAny s' chars in
           if i =? -1 then -1 else i + 1
  end.

Definition lowerByte (c : ascii) : ascii :=
  if byteIn "A" c "Z" then ascii_of_N (N_of_ascii c + 32) else c.

(** [strings.ToLower(s)] on the bytes of ASCII.  Go maps the other runes
    through Unicode's tables; none of them has a lower case among the
    letters of the reserved key, which is all the package compares
    the result with. *)
Fixpoint ToLower (s : string) : string :=
  match s with
  | EmptyString => EmptyString
  | String c s' => String (lowerByte c) (ToLower s')
  end.

End strings.

(** ** Package [net] *)
Module net.

(** [last(s, b)]: index of the last [b] in [s], or [-1]. *)
Fixpoint last (s : string) (b : ascii) : Z :=
  match s with
  | EmptyString => -1
  | String c s' =>
      let i := last s' b in
      if i =? -1 then (if bool_decide (c = b) then 0 else -1) else i + 1
  end.

(** [byteIndex(s, c)]: index of the first [c] in [s], or [-1]. *)
Fixpoint byteIndex (s : string) (c : ascii) : Z :=
  match s with
  | EmptyString => -1
  | String c' s' =>
      if bool_decide (c' = c) then 0
      else let i := byteIndex s' c in
           if i =? -1 then -1 else i + 1
  end.

(** The [Err] text of the [*AddrError] that [SplitHostPort] returns. *)
Definition AddrError := string.

(** [SplitHostPort(hostport)] returns [(host, port, err)]. *)
Definition SplitHostPort (hostport : string)
  : string * string * option AddrError :=
  let missingPort := "missing port in address" in
  let tooManyColons := "too many colons in address" in
  let addrErr (why : string) : string * string * option AddrError :=
    ("", "", Some why) in
  (* the two bracket checks and the port, shared by both branches *)
  let rest (host : string) (i j k : Z) :=
    if 0 <=? byteIndex (subFrom hostport j) "[" then
      addrErr "unexpected '[' in address"
    else if 0 <=? byteIndex (subFrom hostport k) "]" then
      addrErr "unexpected ']' in address"
    else (host, subFrom hostport (i + 1), None) in
  (* The port starts after the last colon. *)
  let i := last hostport ":" in
  if i <? 0 then addrErr missingPort
  else if bool_decide (at' hostport 0 = "["%char) then
    (* Expect the first ']' just before the last ':'. *)
    let end_ := byteIndex hostport "]" in
    if end_ <? 0 then addrErr "missing ']' in address"
    else if end_ + 1 =? len hostport then
      (* There can't be a ':' behind the ']' now. *)
      addrErr missingPort
    else if end_ + 1 =? i then
      (* The expected result. *)
      rest (sub hostport 1 end_) i 1 (end_ + 1)
    else if bool_decide (at' hostport (end_ + 1) = ":"%char) then
      addrErr tooManyColons
    else addrErr missingPort
  else
    let host := subTo hostport i in
    if 0 <=? byteIndex host ":" then addrErr tooManyColons
    else rest host i 0 0.

(** *** [ParseIP] *)

Definition IPv4len : Z := 4.
Definition IPv6len : Z := 16.

(** An [IP] is a slice of bytes; the [nil] slice is [None]. *)
Definition IP := list Z.

Definition getByte (ip : IP) (j : Z) : Z := ip !!! Z.to_nat j.
Definition setByte (ip : IP) (j : Z) (b : Z) : IP := <[Z.to_nat j := b]> ip.

(** Bigger than we need, not too big to worry about overflow. *)
Definition big : Z := 0xFFFFFF.

(** [dtoi(s)]: decimal to integer; number, characters consumed, success. *)
Fixpoint dtoi_loop (s : string) (n i : Z) : Z * Z * bool :=
  match s with
  | String c s' =>
      if byteIn "0" c "9" then
        let n := n * 10 + (byte c - byte "0") in
        if big <=? n then (big, i, false) else dtoi_loop s' n (i + 1)
      else if i =? 0 then (0, 0, false) else (n, i, true)
  | EmptyString => if i =? 0 then (0, 0, false) else (n, i, true)
  end.
Definition dtoi (s : string) : Z * Z * bool := dtoi_loop s 0 0.

(** [xtoi(s)]: hexadecimal to integer; number, characters consumed,
    success. *)
Fixpoint xtoi_loop (s : string) (n i : Z) : Z * Z * bool :=
  let done := if i =? 0 then (0, i, false) else (n, i, true) in
  match s with
  | String c s' =>
      let digit :=
        if byteIn "0" c "9" then Some (byte c - byte "0")
        else if byteIn "a" c "f" then Some (byte c - byte "a" + 10)
        else if byteIn "A" c "F" then Some (byte c - byte "A" + 10)
        else None in
      match digit with
      | Some d =>
          let n := n * 16 + d in
          if big <=? n then (0, i, false) else xtoi_loop s' n (i + 1)
      | None => done
      end
  | EmptyString => done
  end.
Definition xtoi (s : string) : Z * Z * bool := xtoi_loop s 0 0.

Definition v4InV6Prefix : list Z := [0; 0; 0; 0; 0; 0; 0; 0; 0; 0; 0xff; 0xff].

(** [IPv4(a, b, c, d)]: the 16-byte form of the address. *)
Definition IPv4 (a b c d : Z) : IP := v4InV6Prefix ++ [a; b; c; d].

(** [parseIPv4(s)]: the loop runs for [i = 0 .. 3]; [todo] counts the
    iterations that remain. *)
Fixpoint parseIPv4_loop (todo : nat) (i : Z) (s : string) (p : list Z)
  : option IP :=
  match todo with
  | O =>
      if negb (len s =? 0) then None
      else Some (IPv4 (getByte p 0) (getByte p 1) (getByte p 2) (getByte p 3))
  | S todo =>
      if len s =? 0 then None (* Missing octets. *)
      else
        let dotted :=
          if 0 <? i then
            if negb (bool_decide (at' s 0 = "."%char)) then None
            else Some (subFrom s 1)
          else Some s in
        match dotted with
        | None => None
        | Some s =>
            let '(n, c, ok) := dtoi s in
            if negb ok || (0xFF <? n) then None
            else parseIPv4_loop todo (i + 1) (subFrom s c) (setByte p i n)
        end
  end.
Definition parseIPv4 (s : string) : option IP :=
  parseIPv4_loop 4 0 s [0; 0; 0; 0].

(** The loop of [parseIPv6]: [None] is [return nil]; [Some] is the state
    [(ip, i, s, ellipsis)] at the loop's exit, by its condition or by
    [break].  Each pass that does not leave adds 2 to [i], so 8 passes
    are the most there can be. *)
Fixpoint parseIPv6_loop (fuel : nat) (ip : IP) (i : Z) (s : string)
  (ellipsis : Z) : option (IP * Z * string * Z) :=
  if negb (i <? IPv6len) then Some (ip, i, s, ellipsis)
  else match fuel with
  | O => None
  | S fuel =>
      (* Hex number. *)
      let '(n, c, ok) := xtoi s in
      if negb ok || (0xFFFF <? n) then None
      else if (c <? len s) && bool_decide (at' s c = "."%char) then
        (* If followed by dot, might be in trailing IPv4. *)
        if (ellipsis <? 0) && negb (i =? IPv6len - IPv4len) then None
        else if IPv6len <? i + IPv4len then None
        else match parseIPv4 s with
             | None => None
             | Some ip4 =>
                 let ip := setByte ip i (getByte ip4 12) in
                 let ip := setByte ip (i + 1) (getByte ip4 13) in
                 let ip := setByte ip (i + 2) (getByte ip4 14) in
                 let ip := setByte ip (i + 3) (getByte ip4 15) in
                 Some (ip, i + IPv4len, "", ellipsis)
             end
      else
        (* Save this 16-bit chunk. *)
        let ip := setByte ip i (Z.land (Z.shiftr n 8) 0xFF) in
        let ip := setByte ip (i + 1) (Z.land n 0xFF) in
        let i := i + 2 in
        (* Stop at end of string. *)
        let s := subFrom s c in
        if len s =? 0 then Some (ip, i, s, ellipsis)
        (* Otherwise must be followed by colon and more. *)
        else if negb (bool_decide (at' s 0 = ":"%char)) || (len s =? 1)
        then None
        else
          let s := subFrom s 1 in
          (* Look for ellipsis. *)
          if bool_decide (at' s 0 = ":"%char) then
            if 0 <=? ellipsis then None (* already have one *)
            else
              let ellipsis := i in
              let s := subFrom s 1 in
              if len s =? 0 then Some (ip, i, s, ellipsis) (* can be at end *)
              else parseIPv6_loop fuel ip i s ellipsis
          else parseIPv6_loop fuel ip i s ellipsis
  end.

(** [hi, hi-1, ..., lo]: the values of [j] in [for j := hi; j >= lo; j--]. *)
Definition downTo (hi lo : Z) : list Z := reverse (seqZ lo (hi - lo + 1)).

(** [parseIPv6(s, false)]: no zone is allowed, as [ParseIP] calls it. *)
Definition parseIPv6 (s : string) : option IP :=
  let ip := replicate (Z.to_nat IPv6len) 0 in
  let finish (ip : IP) (i : Z) (s : string) (ellipsis : Z) : option IP :=
    (* Must have used entire string. *)
    if negb (len s =? 0) then None
    (* If didn't parse enough, expand ellipsis. *)
    else if i <? IPv6len then
      if ellipsis <? 0 then None
      else
        let n := IPv6len - i in
        let ip := foldl (λ ip j, setByte ip (j + n) (getByte ip j)) ip
                    (downTo (i - 1) ellipsis) in
        let ip := foldl (λ ip j, setByte ip j 0) ip
                    (downTo (ellipsis + n - 1) ellipsis) in
        Some ip
    else if 0 <=? ellipsis then
      (* Ellipsis must represent at least one 0 group. *)
      None
    else Some ip in
  let loop (s : string) (ellipsis : Z) : option IP :=
    match parseIPv6_loop 8 ip 0 s ellipsis with
    | None => None
    | Some (ip, i, s, ellipsis) => finish ip i s ellipsis
    end in
  (* Might have leading ellipsis *)
  if (2 <=? len s) && bool_decide (at' s 0 = ":"%char)
     && bool_decide (at' s 1 = ":"%char) then
    let s := subFrom s 2 in
    (* Might be only ellipsis *)
    if len s =? 0 then Some ip else loop s 0
  else loop s (-1).

(** [ParseIP(s)]: the first ['.'] or [':'] decides between the dotted
    decimal and the IPv6 form (the parser of Go up to 1.16, in package
    [net] itself). *)
Fixpoint ParseIP_scan (s rest : string) : option IP :=
  match rest with
  | EmptyString => None
  | String c rest' =>
      if bool_decide (c = "."%char) then parseIPv4 s
      else if bool_decide (c = ":"%char) then parseIPv6 s
      else ParseIP_scan s rest'
  end.
Definition ParseIP (s : string) : option IP := ParseIP_scan s s.

End net.

(** ** Go maps

    A [map[string]V] is a [gmap string V].  The language leaves the order in
    which [range] visits a map unspecified: the order is a parameter, any
    enumeration of the map's entries. *)
Class MapRange := {
  rangeOrder : ∀ {V : Type}, gmap string V → list (string * V);
  rangeOrder_perm : ∀ {V : Type} (m : gmap string V), rangeOrder m ≡ₚ map_to_list m
}.

(** ** Package [net/url] *)
Module url.

(** The fields of [url.URL] that the package reads or writes. *)
Record URL := {
  Scheme : string;
  Host : string;
  Path : string;
  RawQuery : string
}.

(** [type Values map[string][]string] *)
Abbreviation Values := (gmap string (list string)).

Definition ishex (c : ascii) : bool :=
  byteIn "0" c "9" || byteIn "a" c "f" || byteIn "A" c "F".

Definition unhex (c : ascii) : Z :=
  if byteIn "0" c "9" then byte c - byte "0"
  else if byteIn "a" c "f" then byte c - byte "a" + 10
  else if byteIn "A" c "F" then byte c - byte "A" + 10
  else 0.

Definition toByte (z : Z) : ascii := ascii_of_N (Z.to_N (z `mod` 256)).

(** [shouldEscape(c, encodeQueryComponent)]: the unreserved characters
    stay; in a query component everything else is escaped, the
    reserved characters included. *)
Definition shouldEscape (c : ascii) : bool :=
  if byteIn "A" c "Z" || byteIn "a" c "z" || byteIn "0" c "9" then false
  else if bool_decide (c ∈ ["-"; "_"; "."; "~"]%char) then false
  else true.

Definition upperhex : string := "0123456789ABCDEF".

(** [QueryEscape(s)], that is [escape(s, encodeQueryComponent)]. *)
Fixpoint QueryEscape (s : string) : string :=
  match s with
  | EmptyString => EmptyString
  | String c s' =>
      if bool_decide (c = " "%char) then String "+" (QueryEscape s')
      else if shouldEscape c then
        String "%" (String (at' upperhex (Z.shiftr (byte c) 4))
          (String (at' upperhex (Z.land (byte c) 15)) (QueryEscape s')))
      else String c (QueryEscape s')
  end.

(** First pass of [unescape]: every ['%'] is followed by two hex digits,
    which the scan steps over. *)
Fixpoint unescape_wellformed (s : string) : bool :=
  match s with
  | EmptyString => true
  | String c s' =>
      if bool_decide (c = "%"%char) then
        match s' with
        | String a (String b s'') =>
            ishex a && ishex b && unescape_wellformed s''
        | _ => false
        end
      else unescape_wellformed s'
  end.

(** Second pass of [unescape], in mode [encodeQueryComponent]. *)
Fixpoint unescape_decode (s : string) : string :=
  match s with
  | EmptyString => EmptyString
  | String c s' =>
      if bool_decide (c = "%"%char) then
        match s' with
        | String a (String b s'') =>
            String (toByte (Z.lor (Z.shiftl (unhex a) 4) (unhex b)))
                   (unescape_decode s'')
        | _ => EmptyString
        end
      else if bool_decide (c = "+"%char) then String " " (unescape_decode s')
      else String c (unescape_decode s')
  end.

(** [QueryUnescape(s)]: [None] is the [EscapeError]. *)
Definition QueryUnescape (s : string) : option string :=
  if unescape_wellformed s then Some (unescape_decode s) else None.

(** [parseQuery(m, query)]: the loop [for query != ""], each pass of which
    shortens [query]; [fuel] bounds the passes.  The settings are separated
    by ['&'] or [';'] ([strings.IndexAny(key, "&;")], as up to Go 1.16).  The
    result is the map and whether an error was met ([err != nil]). *)
Fixpoint parseQuery_loop (fuel : nat) (m : Values) (query : string)
  (err : bool) : Values * bool :=
  match fuel with
  | O => (m, err)
  | S fuel =>
      if bool_decide (query = "") then (m, err)
      else
        let key := query in
        let i := strings.IndexAny key "&;" in
        let '(key, query) :=
          if 0 <=? i then (subTo key i, subFrom key (i + 1)) else (key, "") in
        if bool_decide (key = "") then parseQuery_loop fuel m query err
        else
          let value := "" in
          let i := strings.Index key "=" in
          let '(key, value) :=
            if 0 <=? i then (subTo key i, subFrom key (i + 1))
            else (key, value) in
          match QueryUnescape key with
          | None => parseQuery_loop fuel m query true
          | Some key =>
              match QueryUnescape value with
              | None => parseQuery_loop fuel m query true
              | Some value =>
                  parseQuery_loop fuel (<[key := (m !!! key) ++ [value]]> m)
                                  query err
              end
          end
  end.

Definition parseQuery (m : Values) (query : string) : Values * bool :=
  parseQuery_loop (String.length query) m query false.

(** [ParseQuery(query)] returns [(m, err)]. *)
Definition ParseQuery (query : string) : Values * bool := parseQuery ∅ query.

(** [u.Query()]: the error is dropped. *)
Definition Query (u : URL) : Values := (ParseQuery (RawQuery u)).1.

(** [v.Encode()]: "URL encoded" form, sorted by key. *)
Definition Encode `{MapRange} (v : Values) : string :=
  let keys := merge_sort String.le ((rangeOrder v).*1) in
  foldl (λ buf k,
           let vs := v !!! k in
           let prefix := QueryEscape k +:+ "=" in
           foldl (λ buf v,
                    let buf := if 0 <? len buf then buf +:+ "&" else buf in
                    buf +:+ prefix +:+ QueryEscape v)
                 buf vs)
        "" keys.

End url.

(** ** Package [azfile] *)

Definition shareSnapshot : string := "sharesnapshot".

(** The signed-access (SAS) query parameters live in another file of the
    package: their type, the keys they own, how they are read from the
    query's map and how they are written back are parameters here. *)
Class SASSubParser := {
  SASQueryParameters : Type;
  isSASKey : string → bool;
  zeroSAS : SASQueryParameters; (* the zero value of the struct *)
  readSAS : url.Values → bool → SASQueryParameters;
  SAS_Encode : SASQueryParameters → string
}.

(** Modelled from the spec: [newSASQueryParameters], which another file of
    the package defines.  It "consumes the remaining query mapping plus a strictness
    flag, returns a structured authorization-parameter set and (implicitly)
    removes its own keys from the mapping it was given".  The map it was
    given is returned beside the parameter set, as it is left. *)
Definition newSASQueryParameters `{SASSubParser} (values : url.Values)
  (flag : bool) : SASQueryParameters * url.Values :=
  (readSAS values flag, filter (λ kv, isSASKey kv.1 = false) values).

Module FileURLParts.
Section fields.
Context `{SASSubParser}.

(** A [FileURLParts] object represents the components that make up an
    Azure Storage Share/Directory/File URL. *)
Record t := mk {
  Scheme : string;
  Host : string;
  ShareName : string;
  DirectoryOrFilePath : string;
  ShareSnapshot : string;
  SAS : SASQueryParameters;
  UnparsedParams : string;
  accountName : string; (* "" if not using IP endpoint style *)
  isIPEndpointStyle : bool
}.

(** Assignments to one field. *)
Definition set_ShareName (v : string) (up : t) : t :=
  mk (Scheme up) (Host up) v (DirectoryOrFilePath up) (ShareSnapshot up)
     (SAS up) (UnparsedParams up) (accountName up) (isIPEndpointStyle up).
Definition set_DirectoryOrFilePath (v : string) (up : t) : t :=
  mk (Scheme up) (Host up) (ShareName up) v (ShareSnapshot up)
     (SAS up) (UnparsedParams up) (accountName up) (isIPEndpointStyle up).
Definition set_ShareSnapshot (v : string) (up : t) : t :=
  mk (Scheme up) (Host up) (ShareName up) (DirectoryOrFilePath up) v
     (SAS up) (UnparsedParams up) (accountName up) (isIPEndpointStyle up).
Definition set_SAS (v : SASQueryParameters) (up : t) : t :=
  mk (Scheme up) (Host up) (ShareName up) (DirectoryOrFilePath up)
     (ShareSnapshot up) v (UnparsedParams up) (accountName up)
     (isIPEndpointStyle up).
Definition set_UnparsedParams (v : string) (up : t) : t :=
  mk (Scheme up) (Host up) (ShareName up) (DirectoryOrFilePath up)
     (ShareSnapshot up) (SAS up) v (accountName up) (isIPEndpointStyle up).
Definition set_accountName (v : string) (up : t) : t :=
  mk (Scheme up) (Host up) (ShareName up) (DirectoryOrFilePath up)
     (ShareSnapshot up) (SAS up) (UnparsedParams up) v (isIPEndpointStyle up).

End fields.
End FileURLParts.

Abbreviation FileURLParts := FileURLParts.t.

(** [isIPEndpointStyle] checks if URL's host is IP, in this case the storage
    account endpoint will be composed as:
    http(s)://IP(:port)/storageaccount/share(||container||etc)/... *)
Definition isIPEndpointStyle (u : url.URL) : bool :=
  let h := url.Host u in (* url's host could be both host or host:port *)
  let '(h, err) :=
    if negb (strings.Index h ":" =? -1) then
      let '(h, _, err) := net.SplitHostPort h in (h, err)
    else (h, None) in
  bool_decide (err = None) && bool_decide (net.ParseIP h ≠ None).

Module caseInsensitiveValues.

(** The [for k, v := range values] of [Get], over the entries in the order
    the [range] visits them. *)
Fixpoint Get_loop (entries : list (string * list string)) (key : string)
  : list string * bool :=
  match entries with
  | [] => ([], false)
  | (k, v) :: entries =>
      if bool_decide (strings.ToLower k = key) then (v, true)
      else Get_loop entries key
  end.

Definition Get `{MapRange} (values : url.Values) (key : string)
  : list string * bool :=
  let key := strings.ToLower key in
  Get_loop (rangeOrder values) key.

End caseInsensitiveValues.

Section azfile.
Context `{MapRange} `{SASSubParser}.

(** The path of [NewFileURLParts]: the branch [if u.Path != ""]. *)
Definition parsePath (u : url.URL) (isIPEndpointStyle : bool)
  (up : FileURLParts) : option FileURLParts :=
  let path := url.Path u in
  c ← byteAt path 0;
  path ← (if bool_decide (c = "/"%char) then sliceFrom path 1 else Some path);
  if isIPEndpointStyle then
    let accountEndIndex := strings.Index path "/" in
    if accountEndIndex =? -1 then
      (* Slash not found; path has account name & no share, path of
         directory or file *)
      Some (FileURLParts.set_accountName path up)
    else
      (* The account name is the part between the slashes *)
      a ← sliceTo path accountEndIndex;
      let up := FileURLParts.set_accountName a up in
      path ← sliceFrom path (accountEndIndex + 1);
      (* Find the next slash (if it exists) *)
      let shareEndIndex := strings.Index path "/" in
      if shareEndIndex =? -1 then
        (* Slash not found; path has share name & no path of directory or
           file *)
        Some (FileURLParts.set_ShareName path up)
      else
        (* Slash found; path has share name & path of directory or file *)
        s ← sliceTo path shareEndIndex;
        let up := FileURLParts.set_ShareName s up in
        d ← sliceFrom path (shareEndIndex + 1);
        Some (FileURLParts.set_DirectoryOrFilePath d up)
  else
    (* Find the next slash (if it exists) *)
    let shareEndIndex := strings.Index path "/" in
    if shareEndIndex =? -1 then
      Some (FileURLParts.set_ShareName path up)
    else
      s ← sliceTo path shareEndIndex;
      let up := FileURLParts.set_ShareName s up in
      d ← sliceFrom path (shareEndIndex + 1);
      Some (FileURLParts.set_DirectoryOrFilePath d up).

(** [NewFileURLParts] parses a URL initializing [FileURLParts]' fields
    including any SAS-related & sharesnapshot query parameters.  Any other
    query parameters remain in the [UnparsedParams] field.  [None] is a
    run-time panic. *)
Definition NewFileURLParts (u : url.URL) : option FileURLParts :=
  let isIPEndpointStyle := isIPEndpointStyle u in
  let up :=
    FileURLParts.mk (url.Scheme u) (url.Host u) "" "" "" zeroSAS ""
                    "" isIPEndpointStyle in
  up ← (if bool_decide (url.Path u ≠ "") then parsePath u isIPEndpointStyle up
        else Some up);
  (* Convert the query parameters to a case-sensitive map & trim whitespace *)
  let paramsMap := url.Query u in
  '(up, paramsMap) ←
    (match caseInsensitiveValues.Get paramsMap shareSnapshot with
     | (snapshotStr, true) =>
         s0 ← snapshotStr !! 0%nat;
         let up := FileURLParts.set_ShareSnapshot s0 up in
         (* If we recognized the query parameter, remove it from the map *)
         Some (up, delete shareSnapshot paramsMap)
     | (_, false) => Some (up, paramsMap)
     end);
  let '(sas, paramsMap) := newSASQueryParameters paramsMap true in
  let up := FileURLParts.set_SAS sas up in
  let up := FileURLParts.set_UnparsedParams (url.Encode paramsMap) up in
  Some up.

(** [URL] returns a URL object whose fields are initialized from the
    [FileURLParts] fields.  The URL's [RawQuery] field contains the SAS,
    snapshot, and unparsed query parameters. *)
Definition URL (up : FileURLParts) : url.URL :=
  let path := "" in
  (* Concatenate account name for IP endpoint style URL *)
  let path :=
    if FileURLParts.isIPEndpointStyle up
       && bool_decide (FileURLParts.accountName up ≠ "")
    then path +:+ "/" +:+ FileURLParts.accountName up else path in
  (* Concatenate share & path of directory or file (if they exist) *)
  let path :=
    if bool_decide (FileURLParts.ShareName up ≠ "") then
      let path := path +:+ "/" +:+ FileURLParts.ShareName up in
      if bool_decide (FileURLParts.DirectoryOrFilePath up ≠ "")
      then path +:+ "/" +:+ FileURLParts.DirectoryOrFilePath up
      else path
    else path in
  let rawQuery := FileURLParts.UnparsedParams up in
  (* Concatenate share snapshot query parameter (if it exists) *)
  let rawQuery :=
    if bool_decide (FileURLParts.ShareSnapshot up ≠ "") then
      let rawQuery := if 0 <? len rawQuery then rawQuery +:+ "&" else rawQuery in
      rawQuery +:+ shareSnapshot +:+ "=" +:+ FileURLParts.ShareSnapshot up
    else rawQuery in
  let sas := SAS_Encode (FileURLParts.SAS up) in
  let rawQuery :=
    if bool_decide (sas ≠ "") then
      let rawQuery := if 0 <? len rawQuery then rawQuery +:+ "&" else rawQuery in
      rawQuery +:+ sas
    else rawQuery in
  {| url.Scheme := FileURLParts.Scheme up;
     url.Host := FileURLParts.Host up;
     url.Path := path;
     url.RawQuery := rawQuery |}.

End azfile.

(** * The properties' vocabulary *)

(** ** Strings *)

(** The byte [c], as a test on bytes. *)
Definition isByte (c : ascii) : ascii → bool := λ x, bool_decide (x = c).

(** The index of the first byte of a string that [P] holds of, or [-1]. *)
Fixpoint indexBy (P : ascii → bool) (s : string) : Z :=
  match s with
  | EmptyString => -1
  | String c s' =>
      if P c then 0
      else if indexBy P s' =? -1 then -1 else indexBy P s' + 1
  end.

(** No byte of the string is one that [P] holds of. *)
Fixpoint freeOf (P : ascii → bool) (s : string) : bool :=
  match s with
  | EmptyString => true
  | String c s' => negb (P c) && freeOf P s'
  end.

(** The text before the first byte that [P] holds of, and the text after
    that byte when there is one. *)
Fixpoint cutBy (P : ascii → bool) (s : string) : string * option string :=
  match s with
  | EmptyString => (EmptyString, None)
  | String c s' =>
      if P c then (EmptyString, Some s')
      else let '(a, r) := cutBy P s' in (String c a, r)
  end.

(** The pieces of a string between the bytes that [P] holds of. *)
Fixpoint splitBy (P : ascii → bool) (s : string) : list string :=
  match s with
  | EmptyString => [EmptyString]
  | String c s' =>
      if P c then EmptyString :: splitBy P s'
      else match splitBy P s' with
           | piece :: pieces => String c piece :: pieces
           | [] => [String c EmptyString]
           end
  end.

(** The 256 bytes. *)
Definition allBytes : list ascii := ascii_of_nat <$> seq 0 256.

(** ** Paths *)

(** A string without ['/']. *)
Definition noSlash (s : string) : Prop := strings.Index s "/" = -1.

(** The path after "stripping one leading [/]". *)
Definition stripLeadingSlash (path : string) : string :=
  match path with
  | String "/" rest => rest
  | _ => path
  end.

(** The text before the first ['/'] of a string, and the text after that
    ['/'] when there is one. *)
Definition cut : string → string * option string := cutBy (isByte "/").

(** The share and what follows it, in a path without its leading slash. *)
Definition shareAndPath (path : string) : string * string :=
  match cut path with
  | (s, None) => (s, "")
  | (s, Some d) => (s, d)
  end.

(** Account, share, and directory or file path, in a path without its
    leading slash; the account is there in the IP endpoint style only. *)
Definition pathParts (isIPEndpointStyle : bool) (path : string)
  : string * string * string :=
  if isIPEndpointStyle then
    match cut path with
    | (a, None) => (a, "", "")
    | (a, Some rest) => (a, (shareAndPath rest).1, (shareAndPath rest).2)
    end
  else ("", (shareAndPath path).1, (shareAndPath path).2).

(** The effective path: the non-empty segments between the slashes. *)
Definition pathSegments (path : string) : list string :=
  filter (λ segment, segment ≠ "") (splitBy (isByte "/") path).

(** The path names a share wherever it names a directory or a file: where
    the share's segment is empty, no segment follows it. *)
Definition shareNamed (isIPEndpointStyle : bool) (path : string) : Prop :=
  let P := pathParts isIPEndpointStyle (stripLeadingSlash path) in
  P.1.2 = "" → pathSegments P.2 = [].

(** The account's prefix of the rebuilt path. *)
Definition accountPrefix `{SASSubParser} (up : FileURLParts) : string :=
  if FileURLParts.isIPEndpointStyle up
     && bool_decide (FileURLParts.accountName up ≠ "")
  then "/" +:+ FileURLParts.accountName up else "".

(** The path that [URL] is said to rebuild: "if IPEndpoint and accountName
    non-empty, prefix /accountName; append /shareName if non-empty; append
    /directoryOrFilePath if non-empty". *)
Definition pathAsSpecified `{SASSubParser} (up : FileURLParts) : string :=
  accountPrefix up
  +:+ (if bool_decide (FileURLParts.ShareName up ≠ "")
       then "/" +:+ FileURLParts.ShareName up else "")
  +:+ (if bool_decide (FileURLParts.DirectoryOrFilePath up ≠ "")
       then "/" +:+ FileURLParts.DirectoryOrFilePath up else "").

(** ** Queries *)

(** The separators of a query's settings. *)
Definition isQuerySep : ascii → bool := strings.containsByte "&;".

(** The bytes that delimit the settings of a query, and a key from its
    value. *)
Definition sepOrEq (c : ascii) : bool := isQuerySep c || isByte "=" c.

(** A value that reads back as it is written: none of its bytes separates
    settings or is touched by unescaping. *)
Definition plainValue (v : string) : bool :=
  freeOf (strings.containsByte "&;%+") v.

(** The escaped form of one byte is one of: the byte itself, neither ['%']
    nor ['+']; ['+'] for the space; ['%'] and the two hex digits of the
    byte. *)
Definition escapeShape (c : ascii) : bool :=
  match url.QueryEscape (String c "") with
  | String x EmptyString =>
      (bool_decide (x = "+"%char) && bool_decide (c = " "%char))
      || (bool_decide (x = c) && negb (bool_decide (x = "%"%char))
          && negb (bool_decide (x = "+"%char)))
  | String p (String x (String y EmptyString)) =>
      bool_decide (p = "%"%char) && url.ishex x && url.ishex y
      && bool_decide
           (url.toByte (Z.lor (Z.shiftl (url.unhex x) 4) (url.unhex y)) = c)
  | _ => false
  end.

(** A key and a value as [Encode] writes them. *)
Definition setting (key value : string) : string :=
  url.QueryEscape key +:+ "=" +:+ url.QueryEscape value.

(** [m[key] = append(m[key], value)] *)
Definition appendValue (m : url.Values) (key value : string) : url.Values :=
  <[key := (m !!! key) ++ [value]]> m.

(** One pass of the loop of [parseQuery], on the setting [key]: the map
    that it leaves. *)
Definition addSetting (m : url.Values) (key : string) : url.Values :=
  if bool_decide (key = "") then m
  else
    let '(key, value) :=
      match cutBy (isByte "=") key with
      | (key, None) => (key, "")
      | (key, Some value) => (key, value)
      end in
    match url.QueryUnescape key, url.QueryUnescape value with
    | Some key, Some value => appendValue m key value
    | _, _ => m
    end.

(** The values of a key appended to the map, in their order. *)
Definition appendValues (v : url.Values) (m : url.Values) (key : string)
  : url.Values :=
  foldl (λ m value, appendValue m key value) m (v !!! key).

(** The values of the second map appended to those of the first, key by
    key. *)
Definition appendMaps (m1 m2 : url.Values) : url.Values :=
  union_with (λ vs1 vs2, Some (vs1 ++ vs2)) m1 m2.

(** Every key of a parsed query has a value: a slice with a first element. *)
Definition allNonEmpty (m : url.Values) : Prop :=
  map_Forall (λ _ vs, vs ≠ []) m.

(** The segments of a string, joined by [sep] where two non-empty ones
    meet: "no [&] when a segment is absent". *)
Fixpoint joinNonEmpty (sep : string) (segments : list string) : string :=
  match segments with
  | [] => ""
  | seg :: segments =>
      let rest := joinNonEmpty sep segments in
      if bool_decide (seg = "") then rest
      else if bool_decide (rest = "") then seg
      else seg +:+ sep +:+ rest
  end.

(** The snapshot's segment of the raw query: [sharesnapshot=<value>], or
    nothing for the empty snapshot. *)
Definition snapshotSegment `{SASSubParser} (up : FileURLParts) : string :=
  if bool_decide (FileURLParts.ShareSnapshot up ≠ "")
  then shareSnapshot +:+ "=" +:+ FileURLParts.ShareSnapshot up else "".

(** The snapshot that [NewFileURLParts] reads from the query's map, and the
    map it leaves. *)
Definition snapshotStep `{MapRange} (paramsMap : url.Values)
  : string * url.Values :=
  match caseInsensitiveValues.Get paramsMap shareSnapshot with
  | (snapshotStr, true) =>
      (default "" (snapshotStr !! 0%nat), delete shareSnapshot paramsMap)
  | (_, false) => ("", paramsMap)
  end.

(** The snapshot's key, where the query has it in some casing, is in lower
    case and has one value, which is not empty and is plain. *)
Definition snapshotCanonical (m : url.Values) : Prop :=
  ∀ k vs, m !! k = Some vs → strings.ToLower k = shareSnapshot →
    k = shareSnapshot ∧ ∃ v, vs = [v] ∧ v ≠ "" ∧ plainValue v = true.

(** The same as a test on the entries of the map. *)
Definition snapshotCanonicalb (m : url.Values) : bool :=
  forallb
    (λ kvs : string * list string,
       if bool_decide (strings.ToLower kvs.1 = shareSnapshot) then
         bool_decide (kvs.1 = shareSnapshot)
         && match kvs.2 with
            | [v] => negb (bool_decide (v = "")) && plainValue v
            | _ => false
            end
       else true)
    (map_to_list m).

(** The sub-parser writes back the parameters that it has taken from the
    map. *)
Definition sasLossless `{SASSubParser} (m : url.Values) : Prop :=
  (url.ParseQuery (SAS_Encode (readSAS m true))).1
  = filter (λ kv, isSASKey kv.1 = true) m.

(** ** Observable equivalence *)

(** The key→value associations of a URL's query, the keys in lower case:
    key casing may change. *)
Definition associations (u : url.URL) : list (string * string) :=
  map_to_list (url.Query u) ≫=
    λ kvs, (λ v, (strings.ToLower kvs.1, v)) <$> kvs.2.

(** Observable equivalence of two URLs: the same scheme, the same host, the
    same effective path, and the same multiset of associations. *)
Definition observablyEquivalent (u1 u2 : url.URL) : Prop :=
  url.Scheme u1 = url.Scheme u2 ∧
  url.Host u1 = url.Host u2 ∧
  pathSegments (url.Path u1) = pathSegments (url.Path u2) ∧
  associations u1 ≡ₚ associations u2.

(** ** Sample parameters and URLs *)

(** The order of [map_to_list] is one possible [range] order. *)
Definition listOrder : MapRange :=
  {| rangeOrder := λ V m, map_to_list m;
     rangeOrder_perm := λ V m, reflexivity _ |}.

(** A sub-parser that owns no key. *)
Definition noSAS : SASSubParser :=
  {| SASQueryParameters := unit;
     isSASKey := λ _, false;
     zeroSAS := tt;
     readSAS := λ _ _, tt;
     SAS_Encode := λ _, "" |}.

(** A sub-parser that owns the keys [sv] and [sig], in any casing: its
    parameter set is the part of the map under its keys, written back in
    the URL encoded form. *)
Definition tokenSAS `{MapRange} : SASSubParser :=
  let owned (k : string) : bool :=
    bool_decide (strings.ToLower k ∈ ["sv"; "sig"]) in
  {| SASQueryParameters := url.Values;
     isSASKey := owned;
     zeroSAS := ∅;
     readSAS := λ m _, filter (λ kv, owned kv.1 = true) m;
     SAS_Encode := url.Encode |}.

(** The URL [u] with another path. *)
Definition withPath (path : string) (u : url.URL) : url.URL :=
  {| url.Scheme := url.Scheme u; url.Host := url.Host u;
     url.Path := path; url.RawQuery := url.RawQuery u |}.

(** The URL [u] with another host. *)
Definition withHost (host : string) (u : url.URL) : url.URL :=
  {| url.Scheme := url.Scheme u; url.Host := host;
     url.Path := url.Path u; url.RawQuery := url.RawQuery u |}.

(** The URL [u] with another raw query. *)
Definition withRawQuery (query : string) (u : url.URL) : url.URL :=
  {| url.Scheme := url.Scheme u; url.Host := url.Host u;
     url.Path := url.Path u; url.RawQuery := query |}.

(** A URL in the IP endpoint style. *)
Definition ipURL : url.URL :=
  {| url.Scheme := "https"; url.Host := "10.0.0.1:443";
     url.Path := "/myaccount/myshare/dir/file.txt"; url.RawQuery := "" |}.

(** A URL in the named-host style. *)
Definition namedURL : url.URL :=
  {| url.Scheme := "https"; url.Host := "account.service.example.com";
     url.Path := "/myshare/dir/file.txt";
     url.RawQuery := "sharesnapshot=2020-01-01T00:00:00Z&foo=bar" |}.

(** The snapshot's key in another casing, and one more parameter. *)
Definition snapshotCaseURL : url.URL :=
  withRawQuery "ShareSnapshot=2020-01-01T00:00:00Z&foo=bar" namedURL.

(** A snapshot given twice. *)
Definition twoSnapshotsURL : url.URL :=
  withRawQuery "sharesnapshot=a&sharesnapshot=b" namedURL.

(** A path with no share before the directory. *)
Definition noShareURL : url.URL := withPath "//dir/file.txt" namedURL.

(** A URL with a snapshot, a SAS token and one more parameter. *)
Definition tokenURL : url.URL :=
  withRawQuery "sv=2017-07-29&sharesnapshot=2020-01-01T00:00:00Z&Foo=b+r&sig=a%2Fb"
    namedURL.

(** Parts that a caller can set: a directory or file path and no share. *)
Definition noShareParts : @FileURLParts noSAS :=
  @FileURLParts.mk noSAS "https" "account.service.example.com" ""
                   "dir/file.txt" "" tt "" "" false.

(** A [range] order that visits the key [k] first, where the map has it. *)
Definition keyFirst (k : string) : MapRange :=
  {| rangeOrder := λ V m,
       match m !! k with
       | Some v => (k, v) :: map_to_list (delete k m)
       | None => map_to_list m
       end;
     rangeOrder_perm := λ V m,
       match m !! k as o
         return m !! k = o →
                match o with
                | Some v => (k, v) :: map_to_list (delete k m)
                | None => map_to_list m
                end ≡ₚ map_to_list m
       with
       | Some v => λ E, map_to_list_delete m k v E
       | None => λ _, reflexivity _
       end eq_refl |}.

(** The snapshot's key in two casings. *)
Definition twoCasingsURL : url.URL :=
  withRawQuery "ShareSnapshot=a&sharesnapshot=b" namedURL.

(** The path that [URL] builds, as a function of the four fields it is built
    from. *)
Definition pathOfParts `{SASSubParser} (isIPEndpointStyle : bool)
  (accountName ShareName DirectoryOrFilePath : string) : string :=
  url.Path
    (URL (FileURLParts.mk "" "" ShareName DirectoryOrFilePath "" zeroSAS ""
            accountName isIPEndpointStyle)).

(** Parts with names that a path can carry: no slash in the account and the
    share, no directory or file path without a share, and in the IP endpoint
    style no share without an account. *)
Definition wellFormedParts `{SASSubParser} (up : FileURLParts) : Prop :=
  noSlash (FileURLParts.accountName up) ∧
  noSlash (FileURLParts.ShareName up) ∧
  (FileURLParts.ShareName up = "" → FileURLParts.DirectoryOrFilePath up = "") ∧
  (FileURLParts.isIPEndpointStyle up = true →
   FileURLParts.accountName up = "" → FileURLParts.ShareName up = "").

(** Parts in the IP endpoint style, as a caller can set them. *)
Definition ipParts : @FileURLParts noSAS :=
  @FileURLParts.mk noSAS "https" "10.0.0.1:443" "myshare" "dir/file.txt"
                   "2020-01-01T00:00:00Z" tt "foo=bar" "myaccount" true.

(** The bytes that delimit a host from its port, and an IPv6 literal. *)
Definition colonOrBracket : ascii → bool := strings.containsByte ":[]".

(** The brackets of an IPv6 literal. *)
Definition isBracket : ascii → bool := strings.containsByte "[]".

(** A byte that the dotted decimal form has no place for. *)
Definition notDigitOrDot (c : ascii) : bool :=
  negb (byteIn "0" c "9" || isByte "." c).

(** * Properties *)

(** ** Strings and slices *)

Lemma app_String (c : ascii) (a b : string) :
  String c a +:+ b = String c (a +:+ b).
Proof. reflexivity. Qed.

Lemma app_empty_l (s : string) : "" +:+ s = s.
Proof. reflexivity. Qed.

Lemma app_empty_r (s : string) : s +:+ "" = s.
Proof. induction s as [|c s IH]; [done|]. by rewrite app_String, IH. Qed.

Lemma app_assoc_s (a b c : string) : (a +:+ b) +:+ c = a +:+ b +:+ c.
Proof. induction a as [|x a IH]; [done|]. by rewrite !app_String, IH. Qed.

Lemma len_nonneg (s : string) : 0 ≤ len s.
Proof. unfold len. lia. Qed.

Lemma len_String (c : ascii) (s : string) : len (String c s) = len s + 1.
Proof. unfold len. simpl. lia. Qed.

Lemma len_app (a b : string) : len (a +:+ b) = len a + len b.
Proof.
  induction a as [|c a IH]; [rewrite app_empty_l; unfold len; simpl; lia|].
  rewrite app_String, !len_String, IH. lia.
Qed.

Lemma dropBytes_app (a b : string) : dropBytes (String.length a) (a +:+ b) = b.
Proof. induction a as [|c a IH]; [done|]. by rewrite app_String. Qed.

Lemma takeBytes_app (a b : string) : takeBytes (String.length a) (a +:+ b) = a.
Proof.
  induction a as [|c a IH]; [done|]. rewrite app_String. simpl. by rewrite IH.
Qed.

Lemma takeBytes_all (s : string) : takeBytes (String.length s) s = s.
Proof. induction s as [|c s IH]; [done|]. simpl. by rewrite IH. Qed.

Lemma sliceTo_app (a b : string) : sliceTo (a +:+ b) (len a) = Some a.
Proof.
  unfold sliceTo, slice. pose proof (len_nonneg a). pose proof (len_nonneg b).
  rewrite bool_decide_eq_true_2 by (rewrite len_app; lia).
  simpl. rewrite Z.sub_0_r. unfold len. rewrite Nat2Z.id.
  by rewrite takeBytes_app.
Qed.

Lemma sliceFrom_app (a b : string) : sliceFrom (a +:+ b) (len a) = Some b.
Proof.
  unfold sliceFrom, slice. pose proof (len_nonneg a). pose proof (len_nonneg b).
  rewrite bool_decide_eq_true_2 by (rewrite len_app; lia).
  rewrite len_app. replace (len a + len b - len a) with (len b) by lia.
  unfold len. rewrite !Nat2Z.id, dropBytes_app. by rewrite takeBytes_all.
Qed.

Lemma sliceFrom_app_1 (a b : string) (c : ascii) :
  sliceFrom (a +:+ String c b) (len a + 1) = Some b.
Proof.
  replace (a +:+ String c b) with ((a +:+ String c "") +:+ b)
    by (by rewrite app_assoc_s).
  replace (len a + 1) with (len (a +:+ String c ""))
    by (rewrite len_app; done).
  apply sliceFrom_app.
Qed.

Lemma sliceFrom_String_1 (c : ascii) (s : string) :
  sliceFrom (String c s) 1 = Some s.
Proof. apply (sliceFrom_app_1 "" s c). Qed.

Lemma byteAt_0 (c : ascii) (s : string) : byteAt (String c s) 0 = Some c.
Proof. reflexivity. Qed.

(** ** Indices and cuts *)

Lemma Index_byte (c : ascii) (s : string) :
  strings.Index s (String c "") = indexBy (isByte c) s.
Proof.
  induction s as [|x s IH]; [done|].
  cbn [strings.Index String.prefix indexBy]. rewrite IH. unfold isByte.
  destruct (ascii_dec c x) as [<-|Hne].
  - rewrite bool_decide_eq_true_2 by done. by destruct s.
  - by rewrite bool_decide_eq_false_2 by congruence.
Qed.

Lemma IndexAny_indexBy (chars s : string) :
  strings.IndexAny s chars = indexBy (strings.containsByte chars) s.
Proof. induction s as [|x s IH]; [done|]. simpl. by rewrite IH. Qed.

Lemma indexBy_bounds (P : ascii → bool) (s : string) :
  indexBy P s = -1 ∨ (0 ≤ indexBy P s ∧ indexBy P s < len s).
Proof.
  induction s as [|c s IH]; [by left|].
  simpl. rewrite len_String. pose proof (len_nonneg s).
  destruct (P c); [right; lia|].
  destruct (Z.eqb_spec (indexBy P s) (-1)); [by left|right; lia].
Qed.

Lemma indexBy_free (P : ascii → bool) (s : string) :
  indexBy P s = -1 ↔ freeOf P s = true.
Proof.
  induction s as [|c s IH]; [done|]. simpl.
  destruct (P c); simpl; [done|].
  destruct (indexBy_bounds P s) as [E|E];
    destruct (Z.eqb_spec (indexBy P s) (-1)); rewrite <- IH; split; lia.
Qed.

Lemma indexBy_app (P : ascii → bool) (a r : string) (c : ascii) :
  freeOf P a = true → P c = true → indexBy P (a +:+ String c r) = len a.
Proof.
  intros Ha Hc. induction a as [|x a IH].
  - rewrite app_empty_l. simpl. by rewrite Hc.
  - simpl in Ha. apply andb_true_iff in Ha as [Hx Ha].
    rewrite app_String, len_String. simpl. rewrite IH by done.
    apply negb_true_iff in Hx as ->. pose proof (len_nonneg a).
    destruct (Z.eqb_spec (len a) (-1)); lia.
Qed.

Lemma cutBy_free (P : ascii → bool) (s : string) :
  freeOf P s = true → cutBy P s = (s, None).
Proof.
  induction s as [|c s IH]; [done|]. simpl.
  intros [Hc Hs]%andb_true_iff. apply negb_true_iff in Hc as ->.
  by rewrite IH.
Qed.

Lemma cutBy_app (P : ascii → bool) (a r : string) (c : ascii) :
  freeOf P a = true → P c = true → cutBy P (a +:+ String c r) = (a, Some r).
Proof.
  intros Ha Hc. induction a as [|x a IH].
  - rewrite app_empty_l. simpl. by rewrite Hc.
  - simpl in Ha. apply andb_true_iff in Ha as [Hx Ha].
    rewrite app_String. simpl. apply negb_true_iff in Hx as ->.
    by rewrite IH.
Qed.

Lemma cutBy_None (P : ascii → bool) (s a : string) :
  cutBy P s = (a, None) → a = s ∧ freeOf P s = true.
Proof.
  revert a. induction s as [|c s IH]; intros a; simpl.
  - by intros [= <-].
  - destruct (P c); [done|]. destruct (cutBy P s) as [a' r'].
    intros [= <- ->]. by destruct (IH a' eq_refl) as [-> ->].
Qed.

Lemma cutBy_Some (P : ascii → bool) (s a r : string) :
  cutBy P s = (a, Some r) →
  ∃ c, P c = true ∧ s = a +:+ String c r ∧ freeOf P a = true.
Proof.
  revert a. induction s as [|c s IH]; intros a; simpl; [done|].
  destruct (P c) eqn:Hc.
  - intros [= <- <-]. by exists c.
  - destruct (cutBy P s) as [a' r']. intros [= <- ->].
    destruct (IH a' eq_refl) as (c' & Hc' & -> & Ha). exists c'.
    simpl. by rewrite Hc, Ha.
Qed.

(** What the code computes with an index and two slices is the cut; none
    of the slices is out of range. *)
Lemma indexBy_cutBy (P : ascii → bool) (s : string) :
  match cutBy P s with
  | (a, None) => a = s ∧ indexBy P s = -1
  | (a, Some r) =>
      0 ≤ indexBy P s
      ∧ sliceTo s (indexBy P s) = Some a
      ∧ sliceFrom s (indexBy P s + 1) = Some r
  end.
Proof.
  destruct (cutBy P s) as [a [r|]] eqn:E.
  - apply cutBy_Some in E as (c & Hc & -> & Ha).
    rewrite indexBy_app by done.
    split; [apply len_nonneg|]. split; [apply sliceTo_app|].
    apply sliceFrom_app_1.
  - apply cutBy_None in E as [-> Hs]. by apply indexBy_free in Hs.
Qed.

Lemma splitBy_cutBy (P : ascii → bool) (s : string) :
  splitBy P s = match cutBy P s with
                | (a, None) => [a]
                | (a, Some r) => a :: splitBy P r
                end.
Proof.
  induction s as [|c s IH]; [done|]. simpl.
  destruct (P c); [done|]. rewrite IH.
  by destruct (cutBy P s) as [a [r|]].
Qed.

Lemma splitBy_free (P : ascii → bool) (s : string) :
  freeOf P s = true → splitBy P s = [s].
Proof. intros Hs. by rewrite splitBy_cutBy, cutBy_free. Qed.

Lemma splitBy_cons (P : ascii → bool) (s : string) :
  ∃ piece pieces, splitBy P s = piece :: pieces.
Proof.
  destruct s as [|c s]; simpl; [by eexists _, _|].
  destruct (P c); [by eexists _, _|].
  destruct (splitBy P s); by eexists _, _.
Qed.

Lemma splitBy_app (P : ascii → bool) (a b : string) (c : ascii) :
  P c = true → splitBy P (a +:+ String c b) = splitBy P a ++ splitBy P b.
Proof.
  intros Hc. induction a as [|x a IH].
  - rewrite app_empty_l. simpl. by rewrite Hc.
  - rewrite app_String. simpl. destruct (P x); [by rewrite IH|].
    rewrite IH. by destruct (splitBy_cons P a) as (piece & pieces & ->).
Qed.

(** ** Cutting a path at its first ['/'] *)

Lemma noSlash_free (s : string) : noSlash s ↔ freeOf (isByte "/") s = true.
Proof. unfold noSlash. rewrite Index_byte. apply indexBy_free. Qed.

Lemma cut_noSlash (s : string) : noSlash s → cut s = (s, None).
Proof. intros Hs%noSlash_free. by apply cutBy_free. Qed.

Lemma cut_app_slash (a r : string) :
  noSlash a → cut (a +:+ "/" +:+ r) = (a, Some r).
Proof. intros Ha%noSlash_free. by apply cutBy_app. Qed.

Lemma Index_cut (path : string) :
  match cut path with
  | (a, None) => a = path ∧ strings.Index path "/" = -1
  | (a, Some r) =>
      0 ≤ strings.Index path "/"
      ∧ sliceTo path (strings.Index path "/") = Some a
      ∧ sliceFrom path (strings.Index path "/" + 1) = Some r
  end.
Proof. rewrite Index_byte. apply indexBy_cutBy. Qed.

(** ** The path of [NewFileURLParts] *)

Section path_facts.
Context `{MapRange} `{SASSubParser}.

Lemma strip_leading_slash {A : Type} (path : string) (k : string → option A) :
  path ≠ "" →
  (c ← byteAt path 0;
   path' ← (if bool_decide (c = "/"%char) then sliceFrom path 1 else Some path);
   k path')
  = k (stripLeadingSlash path).
Proof.
  destruct path as [|c p]; [done|]. intros _.
  rewrite byteAt_0. simpl. case_bool_decide as Hc.
  - subst c. by rewrite sliceFrom_String_1.
  - destruct c as [[] [] [] [] [] [] [] []]; done.
Qed.

Lemma share_code (path sch host snap unp acct : string)
  (sas : SASQueryParameters) (ip : bool) :
  (let up := FileURLParts.mk sch host "" "" snap sas unp acct ip in
   let shareEndIndex := strings.Index path "/" in
   if shareEndIndex =? -1 then Some (FileURLParts.set_ShareName path up)
   else
     s ← sliceTo path shareEndIndex;
     let up := FileURLParts.set_ShareName s up in
     d ← sliceFrom path (shareEndIndex + 1);
     Some (FileURLParts.set_DirectoryOrFilePath d up))
  = Some (FileURLParts.mk sch host (shareAndPath path).1 (shareAndPath path).2
                          snap sas unp acct ip).
Proof.
  unfold shareAndPath. pose proof (Index_cut path) as Hcut.
  destruct (cut path) as [s [d|]]; simpl.
  - destruct Hcut as (Hi & -> & ->).
    destruct (Z.eqb_spec (strings.Index path "/") (-1)); [lia|done].
  - destruct Hcut as [-> ->]. done.
Qed.

(** The branch [if u.Path != ""] never panics, and sets the fields that
    [pathParts] describes. *)
Lemma parsePath_pathParts (u : url.URL) (ip : bool) (sch host : string) :
  url.Path u ≠ "" →
  let P := pathParts ip (stripLeadingSlash (url.Path u)) in
  parsePath u ip (FileURLParts.mk sch host "" "" "" zeroSAS "" "" ip)
  = Some (FileURLParts.mk sch host P.1.2 P.2 "" zeroSAS "" P.1.1 ip).
Proof.
  intros Hp. unfold parsePath.
  rewrite (strip_leading_slash _ _ Hp).
  set (path := stripLeadingSlash (url.Path u)).
  unfold pathParts. destruct ip; [|apply share_code].
  pose proof (Index_cut path) as Hcut.
  destruct (cut path) as [a [rest|]].
  - destruct Hcut as (Hi & -> & ->). simpl.
    destruct (Z.eqb_spec (strings.Index path "/") (-1)); [lia|].
    apply share_code.
  - destruct Hcut as [-> ->]. done.
Qed.

End path_facts.

(** ** The query's map *)

Lemma allNonEmpty_append (m : url.Values) (key value : string) :
  allNonEmpty m → allNonEmpty (<[key := (m !!! key) ++ [value]]> m).
Proof.
  intros Hm. apply map_Forall_insert_2; [|done].
  by destruct (m !!! key).
Qed.

Lemma parseQuery_loop_nonEmpty (fuel : nat) (m : url.Values) (query : string)
  (err : bool) :
  allNonEmpty m → allNonEmpty (url.parseQuery_loop fuel m query err).1.
Proof.
  revert m query err. induction fuel as [|fuel IH]; intros m query err Hm;
    [done|].
  simpl. case_bool_decide; [done|].
  destruct (if 0 <=? strings.IndexAny query "&;" then _ else _) as [key rest].
  case_bool_decide; [by apply IH|].
  destruct (if 0 <=? strings.Index key "=" then _ else _) as [k v].
  destruct (url.QueryUnescape k) as [k'|]; [|by apply IH].
  destruct (url.QueryUnescape v) as [v'|]; [|by apply IH].
  apply IH. by apply allNonEmpty_append.
Qed.

Lemma Query_nonEmpty (u : url.URL) : allNonEmpty (url.Query u).
Proof. apply parseQuery_loop_nonEmpty. apply map_Forall_empty. Qed.

Section query_facts.
Context `{MapRange}.

Lemma Get_loop_found (entries : list (string * list string)) (key : string)
  (v : list string) :
  caseInsensitiveValues.Get_loop entries key = (v, true) →
  ∃ k, (k, v) ∈ entries ∧ strings.ToLower k = key.
Proof.
  induction entries as [|[k' v'] entries IH]; simpl; [done|].
  case_bool_decide as Hk.
  - intros [= <-]. exists k'. split; [left|done].
  - intros (k & Hin & Hk')%IH. exists k. split; [by right|done].
Qed.

Lemma Get_loop_not_found (entries : list (string * list string))
  (key : string) (v : list string) :
  caseInsensitiveValues.Get_loop entries key = (v, false) →
  v = [] ∧ ∀ k v', (k, v') ∈ entries → strings.ToLower k ≠ key.
Proof.
  induction entries as [|[k' v'] entries IH]; simpl.
  - intros [= <-]. split; [done|]. by intros k v' ?%elem_of_nil.
  - case_bool_decide as Hk; [done|]. intros [-> Hall]%IH. split; [done|].
    intros k v [[= -> ->]|Hin]%elem_of_cons; [done|]. by eapply Hall.
Qed.

Lemma Get_found (values : url.Values) (key : string) (v : list string) :
  caseInsensitiveValues.Get values key = (v, true) →
  ∃ k, values !! k = Some v ∧ strings.ToLower k = strings.ToLower key.
Proof.
  intros (k & Hin & Hk)%Get_loop_found. exists k. split; [|done].
  rewrite rangeOrder_perm in Hin. by apply elem_of_map_to_list in Hin.
Qed.

Lemma Get_not_found (values : url.Values) (key : string) (v : list string) :
  caseInsensitiveValues.Get values key = (v, false) →
  v = [] ∧ ∀ k, strings.ToLower k = strings.ToLower key → values !! k = None.
Proof.
  intros [-> Hall]%Get_loop_not_found. split; [done|].
  intros k Hk. destruct (values !! k) as [v|] eqn:E; [|done].
  exfalso. apply (Hall k v); [|done].
  rewrite rangeOrder_perm. by apply elem_of_map_to_list.
Qed.

(** The snapshot step of [NewFileURLParts] never indexes an empty slice. *)
Lemma snapshot_code {A : Type} (paramsMap : url.Values) (up : A)
  (set : string → A → A) :
  allNonEmpty paramsMap →
  match caseInsensitiveValues.Get paramsMap shareSnapshot with
  | (snapshotStr, true) =>
      s0 ← snapshotStr !! 0%nat;
      let up := set s0 up in
      Some (up, delete shareSnapshot paramsMap)
  | (_, false) => Some (up, paramsMap)
  end
  = Some (match caseInsensitiveValues.Get paramsMap shareSnapshot with
          | (_, true) => set (snapshotStep paramsMap).1 up
          | (_, false) => up
          end, (snapshotStep paramsMap).2).
Proof.
  intros Hm. unfold snapshotStep.
  destruct (caseInsensitiveValues.Get paramsMap shareSnapshot) as [v [|]] eqn:E;
    [|done].
  apply Get_found in E as (k & Hk & _).
  apply Hm in Hk. by destruct v.
Qed.

End query_facts.

(** ** [NewFileURLParts], field by field *)

Section parse_facts.
Context `{MapRange} `{SASSubParser}.

(** [NewFileURLParts] never panics; its result is given by [pathParts]
    and [snapshotStep]. *)
Lemma NewFileURLParts_eq (u : url.URL) :
  let ip := isIPEndpointStyle u in
  let P := pathParts ip (stripLeadingSlash (url.Path u)) in
  let S := snapshotStep (url.Query u) in
  NewFileURLParts u =
    Some (FileURLParts.mk (url.Scheme u) (url.Host u) P.1.2 P.2 S.1
            (readSAS S.2 true)
            (url.Encode (filter (λ kv, isSASKey kv.1 = false) S.2))
            P.1.1 ip).
Proof.
  intros ip P S. unfold NewFileURLParts. fold ip.
  assert ((if bool_decide (url.Path u ≠ "")
           then parsePath u ip
                  (FileURLParts.mk (url.Scheme u) (url.Host u) "" "" ""
                     zeroSAS "" "" ip)
           else Some (FileURLParts.mk (url.Scheme u) (url.Host u) "" "" ""
                        zeroSAS "" "" ip))
          = Some (FileURLParts.mk (url.Scheme u) (url.Host u) P.1.2 P.2 ""
                    zeroSAS "" P.1.1 ip)) as ->.
  { case_bool_decide as Hp.
    - by apply parsePath_pathParts.
    - subst P. rewrite Hp. by destruct ip. }
  simpl.
  rewrite (snapshot_code _ _ FileURLParts.set_ShareSnapshot (Query_nonEmpty u)).
  simpl. fold S. unfold snapshotStep in S.
  destruct (caseInsensitiveValues.Get (url.Query u) shareSnapshot) as [v [|]];
    done.
Qed.

End parse_facts.

(** ** Path segmentation *)

Section segmentation.
Context `{MapRange} `{SASSubParser}.

Lemma shareAndPath_noSlash (s : string) : noSlash s → shareAndPath s = (s, "").
Proof. intros Hs. unfold shareAndPath. by rewrite cut_noSlash. Qed.

Lemma shareAndPath_app (s d : string) :
  noSlash s → shareAndPath (s +:+ "/" +:+ d) = (s, d).
Proof. intros Hs. unfold shareAndPath. by rewrite cut_app_slash. Qed.

(** C4: in the IP endpoint style, with a non-empty path, the first
    segment of the path without its leading slash is the account name; a
    second segment is the share name; everything after the second slash,
    further slashes included, is the directory or file path. *)
Theorem ip_endpoint_path_segments (u : url.URL) :
  isIPEndpointStyle u = true →
  url.Path u ≠ "" →
  ∃ up, NewFileURLParts u = Some up ∧
    let path := stripLeadingSlash (url.Path u) in
    (∀ a, path = a → noSlash a →
       FileURLParts.accountName up = a ∧ FileURLParts.ShareName up = ""
       ∧ FileURLParts.DirectoryOrFilePath up = "") ∧
    (∀ a s, path = a +:+ "/" +:+ s → noSlash a → noSlash s →
       FileURLParts.accountName up = a ∧ FileURLParts.ShareName up = s
       ∧ FileURLParts.DirectoryOrFilePath up = "") ∧
    (∀ a s d, path = a +:+ "/" +:+ s +:+ "/" +:+ d → noSlash a → noSlash s →
       FileURLParts.accountName up = a ∧ FileURLParts.ShareName up = s
       ∧ FileURLParts.DirectoryOrFilePath up = d).
Proof.
  intros Hip _. eexists. split; [apply NewFileURLParts_eq|].
  rewrite Hip. unfold pathParts. simpl.
  generalize (stripLeadingSlash (url.Path u)). intros path.
  split; [|split].
  - intros a -> Ha. by rewrite cut_noSlash.
  - intros a s -> Ha Hs. by rewrite cut_app_slash, shareAndPath_noSlash.
  - intros a s d -> Ha Hs. by rewrite cut_app_slash, shareAndPath_app.
Qed.

(** C5: in the named-host style, with a non-empty path, the first segment
    of the path without its leading slash is the share name, and what
    follows the first slash is the directory or file path. *)
Theorem named_host_path_segments (u : url.URL) :
  isIPEndpointStyle u = false →
  url.Path u ≠ "" →
  ∃ up, NewFileURLParts u = Some up ∧
    let path := stripLeadingSlash (url.Path u) in
    (∀ s, path = s → noSlash s →
       FileURLParts.ShareName up = s
       ∧ FileURLParts.DirectoryOrFilePath up = "") ∧
    (∀ s d, path = s +:+ "/" +:+ d → noSlash s →
       FileURLParts.ShareName up = s
       ∧ FileURLParts.DirectoryOrFilePath up = d).
Proof.
  intros Hip _. eexists. split; [apply NewFileURLParts_eq|].
  rewrite Hip. unfold pathParts. simpl.
  generalize (stripLeadingSlash (url.Path u)). intros path. split.
  - intros s -> Hs. by rewrite shareAndPath_noSlash.
  - intros s d -> Hs. by rewrite shareAndPath_app.
Qed.

(** C9: the account name is set in the IP endpoint style only: a URL in
    the named-host style yields the empty account name. *)
Theorem named_host_no_account (u : url.URL) :
  isIPEndpointStyle u = false →
  ∃ up, NewFileURLParts u = Some up ∧
    FileURLParts.isIPEndpointStyle up = false ∧
    FileURLParts.accountName up = "".
Proof.
  intros Hip. eexists. split; [apply NewFileURLParts_eq|].
  rewrite Hip. done.
Qed.

(** C10: in the named-host style, a path of one segment and a trailing
    slash gives the very parts that the path without the slash gives: the
    segment is the share, nothing is left for the directory or file path,
    and the rebuilt path has no trailing slash. *)
Theorem trailing_slash_indistinguishable (u : url.URL) (seg : string) :
  isIPEndpointStyle u = false →
  noSlash seg →
  url.Path u = "/" +:+ seg +:+ "/" →
  ∃ up, NewFileURLParts u = Some up ∧
    NewFileURLParts (withPath ("/" +:+ seg) u) = Some up ∧
    FileURLParts.ShareName up = seg ∧
    FileURLParts.DirectoryOrFilePath up = "" ∧
    url.Path (URL up) = if bool_decide (seg = "") then "" else "/" +:+ seg.
Proof.
  intros Hip Hseg Hpath. eexists. split; [apply NewFileURLParts_eq|].
  rewrite NewFileURLParts_eq.
  assert (isIPEndpointStyle (withPath ("/" +:+ seg) u) = false) as ->
    by (by rewrite <- Hip).
  rewrite Hip, Hpath. unfold pathParts, URL. simpl. rewrite !app_empty_l.
  change (seg +:+ "/") with (seg +:+ "/" +:+ "").
  rewrite shareAndPath_app, shareAndPath_noSlash by done. simpl.
  repeat split. by repeat case_bool_decide.
Qed.

(** C8: [NewFileURLParts] returns for every URL, without a panic: whatever
    the path, the account, the share and the directory or file path are the
    pieces that the first two slashes cut, empty where there is none; with
    the empty path the three of them are empty, and [URL] rebuilds the empty
    path. *)
Theorem NewFileURLParts_total (u : url.URL) :
  ∃ up, NewFileURLParts u = Some up ∧
    (FileURLParts.accountName up, FileURLParts.ShareName up,
     FileURLParts.DirectoryOrFilePath up)
    = pathParts (isIPEndpointStyle u) (stripLeadingSlash (url.Path u)) ∧
    (url.Path u = "" →
     FileURLParts.ShareName up = "" ∧
     FileURLParts.DirectoryOrFilePath up = "" ∧
     FileURLParts.accountName up = "" ∧
     url.Path (URL up) = "").
Proof.
  eexists. split; [apply NewFileURLParts_eq|].
  cbn [FileURLParts.accountName FileURLParts.ShareName
       FileURLParts.DirectoryOrFilePath].
  split; [by destruct (pathParts _ _) as [[a s] d]|].
  intros ->. unfold URL. simpl. by destruct (isIPEndpointStyle u).
Qed.

End segmentation.

(** ** Witnesses of the segmentation theorems *)

Lemma ip_endpoint_path_segments_witness :
  isIPEndpointStyle ipURL = true ∧ url.Path ipURL ≠ "" ∧
  ∃ up, @NewFileURLParts listOrder noSAS ipURL = Some up ∧
    FileURLParts.accountName up = "myaccount" ∧
    FileURLParts.ShareName up = "myshare" ∧
    FileURLParts.DirectoryOrFilePath up = "dir/file.txt".
Proof.
  assert (isIPEndpointStyle ipURL = true) as Hip by (vm_compute; reflexivity).
  assert (url.Path ipURL ≠ "") as Hp by (intros [=]).
  split; [exact Hip|]. split; [exact Hp|].
  destruct (@ip_endpoint_path_segments listOrder noSAS ipURL Hip Hp)
    as (up & Hup & _ & _ & H3).
  exists up. split; [exact Hup|].
  apply (H3 "myaccount" "myshare" "dir/file.txt"); reflexivity.
Defined.

Lemma named_host_path_segments_witness :
  isIPEndpointStyle namedURL = false ∧ url.Path namedURL ≠ "" ∧
  ∃ up, @NewFileURLParts listOrder noSAS namedURL = Some up ∧
    FileURLParts.ShareName up = "myshare" ∧
    FileURLParts.DirectoryOrFilePath up = "dir/file.txt".
Proof.
  assert (isIPEndpointStyle namedURL = false) as Hip by (vm_compute; reflexivity).
  assert (url.Path namedURL ≠ "") as Hp by (intros [=]).
  split; [exact Hip|]. split; [exact Hp|].
  destruct (@named_host_path_segments listOrder noSAS namedURL Hip Hp)
    as (up & Hup & _ & H2).
  exists up. split; [exact Hup|].
  apply (H2 "myshare" "dir/file.txt"); reflexivity.
Defined.

Lemma named_host_no_account_witness :
  isIPEndpointStyle namedURL = false ∧
  ∃ up, @NewFileURLParts listOrder noSAS namedURL = Some up ∧
    FileURLParts.isIPEndpointStyle up = false ∧
    FileURLParts.accountName up = "".
Proof.
  assert (isIPEndpointStyle namedURL = false) as Hip by (vm_compute; reflexivity).
  split; [exact Hip|].
  exact (@named_host_no_account listOrder noSAS namedURL Hip).
Defined.

Lemma trailing_slash_indistinguishable_witness :
  let u := withPath "/myshare/" namedURL in
  isIPEndpointStyle u = false ∧ noSlash "myshare" ∧
  url.Path u = "/" +:+ "myshare" +:+ "/" ∧
  ∃ up, @NewFileURLParts listOrder noSAS u = Some up ∧
    @NewFileURLParts listOrder noSAS (withPath "/myshare" u) = Some up ∧
    FileURLParts.ShareName up = "myshare" ∧
    FileURLParts.DirectoryOrFilePath up = "" ∧
    url.Path (URL up) = "/myshare".
Proof.
  assert (isIPEndpointStyle (withPath "/myshare/" namedURL) = false) as Hip
    by (vm_compute; reflexivity).
  assert (noSlash "myshare") as Hs by reflexivity.
  split; [exact Hip|]. split; [exact Hs|]. split; [reflexivity|].
  exact (@trailing_slash_indistinguishable listOrder noSAS
           (withPath "/myshare/" namedURL) "myshare" Hip Hs eq_refl).
Defined.

(** ** Rebuilding the path and the raw query *)

Section build.
Context `{SASSubParser}.

(** C6 (amended): [URL] puts [/accountName] first, in the IP endpoint style
    and for a non-empty account name; with a non-empty share name the path
    goes on as specified, with [/shareName] and then, for a non-empty
    directory or file path, [/directoryOrFilePath]; with the empty share
    name nothing follows the account. *)
Theorem URL_path (up : FileURLParts) :
  (FileURLParts.ShareName up ≠ "" → url.Path (URL up) = pathAsSpecified up) ∧
  (FileURLParts.ShareName up = "" → url.Path (URL up) = accountPrefix up).
Proof.
  unfold URL, pathAsSpecified, accountPrefix. simpl. split; intros Hs.
  - rewrite (bool_decide_eq_true_2 _ Hs).
    destruct (FileURLParts.isIPEndpointStyle up && _);
      case_bool_decide; rewrite ?app_empty_l, ?app_empty_r, ?app_assoc_s; done.
  - rewrite bool_decide_eq_false_2 by (by intros ?).
    by destruct (FileURLParts.isIPEndpointStyle up && _).
Qed.

Lemma len_pos (s : string) : (0 <? len s) = negb (bool_decide (s = "")).
Proof.
  destruct s as [|c s]; [done|]. rewrite len_String.
  pose proof (len_nonneg s). rewrite bool_decide_eq_false_2 by done.
  apply Z.ltb_lt. lia.
Qed.

(** The raw query of [URL], as the join of its three segments. *)
Lemma rawQuery_join (up : FileURLParts) :
  url.RawQuery (URL up) =
    joinNonEmpty "&" [FileURLParts.UnparsedParams up;
                      snapshotSegment up;
                      SAS_Encode (FileURLParts.SAS up)].
Proof.
  unfold URL, snapshotSegment. simpl.
  destruct (FileURLParts.UnparsedParams up) as [|c q] eqn:Eq,
    (FileURLParts.ShareSnapshot up) as [|c' v] eqn:Ev,
    (SAS_Encode (FileURLParts.SAS up)) as [|c'' a] eqn:Ea;
    rewrite ?len_pos; simpl; rewrite ?app_assoc_s; reflexivity.
Qed.

(** C7: the raw query that [URL] builds is the unparsed parameters, then
    [sharesnapshot=<value>] for a non-empty snapshot, then the encoded SAS
    parameters when they are not empty, in this order, with one [&] between
    two segments that are there and none for a segment that is not. *)
Theorem URL_rawQuery (up : FileURLParts) :
  url.RawQuery (URL up) =
    joinNonEmpty "&" [FileURLParts.UnparsedParams up;
                      (if bool_decide (FileURLParts.ShareSnapshot up ≠ "")
                       then "sharesnapshot=" +:+ FileURLParts.ShareSnapshot up
                       else "");
                      SAS_Encode (FileURLParts.SAS up)].
Proof.
  unfold URL. simpl.
  destruct (FileURLParts.UnparsedParams up) as [|c q],
    (FileURLParts.ShareSnapshot up) as [|c' v],
    (SAS_Encode (FileURLParts.SAS up)) as [|c'' a];
    rewrite ?len_pos; simpl; rewrite ?app_assoc_s; reflexivity.
Qed.

End build.

(** C6, as it was stated: with a directory or file path and no share
    name, the rebuilt path is empty; the path as specified has the
    directory or file path in it. *)
Lemma URL_path_drops_directory_without_share :
  url.Path (URL noShareParts) = "" ∧
  pathAsSpecified noShareParts = "/dir/file.txt" ∧
  url.Path (URL noShareParts) ≠ pathAsSpecified noShareParts.
Proof. repeat split. intros [=]. Qed.

(** ** The addressing style *)

(** C3, the examples: an IPv4 address with a port, a bracketed IPv6 address
    with a port, and a host name.  And where the code parts from it: the
    brackets of an IPv6 address come off with the port only, so that the
    same address without a port, which [url.Parse] yields for
    [http://[::1]/account/share], is taken for a host name; so is the
    bare literal. *)
Theorem isIPEndpointStyle_examples :
  isIPEndpointStyle (withHost "10.0.0.1:443" ipURL) = true ∧
  isIPEndpointStyle (withHost "[::1]:8080" ipURL) = true ∧
  isIPEndpointStyle (withHost "account.service.example.com" ipURL) = false ∧
  isIPEndpointStyle (withHost "10.0.0.1" ipURL) = true ∧
  net.SplitHostPort "[::1]:8080" = ("::1", "8080", None) ∧
  is_Some (net.ParseIP "::1") ∧
  net.SplitHostPort "[::1]" = ("", "", Some "missing port in address") ∧
  isIPEndpointStyle (withHost "[::1]" ipURL) = false ∧
  net.SplitHostPort "::1" = ("", "", Some "too many colons in address") ∧
  isIPEndpointStyle (withHost "::1" ipURL) = false.
Proof. vm_compute. repeat split; eauto. Qed.

(** ** The snapshot's key *)

Section snapshot_key.
Context `{MapRange}.

(** The keys that [Encode] sorts are the same in whatever order the
    [range] has collected them. *)
Lemma sorted_keys_range_irrelevant (v : url.Values) :
  merge_sort String.le ((rangeOrder v).*1)
  = merge_sort String.le ((map_to_list v).*1).
Proof.
  apply (Sorted_unique String.le); try apply Sorted_merge_sort; try apply _.
  rewrite !merge_sort_Permutation. by rewrite rangeOrder_perm.
Qed.

Lemma Encode_range_irrelevant (v : url.Values) :
  url.Encode v = @url.Encode listOrder v.
Proof. unfold url.Encode. by rewrite sorted_keys_range_irrelevant. Qed.

(** With one key of the map that matches, [Get] finds this key's values,
    whatever the order of the [range]. *)
Lemma Get_unique (values : url.Values) (key k0 : string) (v0 : list string) :
  values !! k0 = Some v0 →
  strings.ToLower k0 = strings.ToLower key →
  (∀ k, is_Some (values !! k) →
        strings.ToLower k = strings.ToLower key → k = k0) →
  caseInsensitiveValues.Get values key = (v0, true).
Proof.
  intros Hk0 Hlow Huniq.
  destruct (caseInsensitiveValues.Get values key) as [v [|]] eqn:E.
  - apply Get_found in E as (k & Hk & Hkl).
    rewrite (Huniq k) in Hk by eauto. congruence.
  - apply Get_not_found in E as [_ Hnone]. by rewrite (Hnone k0 Hlow) in Hk0.
Qed.

Context `{SASSubParser}.

(** C2, where the code parts from it: the key [ShareSnapshot] is
    recognized and its first value is taken, but the key that is deleted
    is [sharesnapshot]: [ShareSnapshot] stays in the map, and so in the
    unparsed parameters, whatever the order of the [range] and for every
    sub-parser that owns neither of the two keys. *)
Theorem snapshot_key_kept_in_other_casing :
  isSASKey "ShareSnapshot" = false →
  isSASKey "foo" = false →
  ∃ up, NewFileURLParts snapshotCaseURL = Some up ∧
    FileURLParts.ShareSnapshot up = "2020-01-01T00:00:00Z" ∧
    FileURLParts.UnparsedParams up
      = "ShareSnapshot=2020-01-01T00%3A00%3A00Z&foo=bar" ∧
    url.RawQuery (URL up)
      = joinNonEmpty "&"
          ["ShareSnapshot=2020-01-01T00%3A00%3A00Z&foo=bar";
           "sharesnapshot=2020-01-01T00:00:00Z";
           SAS_Encode (FileURLParts.SAS up)].
Proof.
  intros Hs Hf. eexists. split; [apply NewFileURLParts_eq|].
  rewrite rawQuery_join. unfold snapshotSegment.
  cbn [FileURLParts.ShareSnapshot FileURLParts.UnparsedParams FileURLParts.SAS].
  set (m0 := <["ShareSnapshot" := ["2020-01-01T00:00:00Z"]]>
               (<["foo" := ["bar"]]> (∅ : url.Values))).
  assert (url.Query snapshotCaseURL = m0) as -> by (vm_compute; reflexivity).
  assert (∀ k, is_Some (m0 !! k) → k = "ShareSnapshot" ∨ k = "foo") as Hkeys.
  { intros k [v Hk]. subst m0.
    apply lookup_insert_Some in Hk as [[<- _]|[_ Hk]]; [by left|].
    apply lookup_insert_Some in Hk as [[<- _]|[_ Hk]]; [by right|].
    by rewrite lookup_empty in Hk. }
  assert (snapshotStep m0 = ("2020-01-01T00:00:00Z", m0)) as ->.
  { unfold snapshotStep.
    rewrite (Get_unique m0 shareSnapshot "ShareSnapshot" ["2020-01-01T00:00:00Z"]).
    - vm_compute. reflexivity.
    - vm_compute. reflexivity.
    - vm_compute. reflexivity.
    - intros k [->| ->]%Hkeys; [reflexivity|]. vm_compute. intros [=]. }
  cbn [fst snd].
  assert (filter (λ kv : string * list string, isSASKey kv.1 = false) m0 = m0)
    as ->.
  { apply map_filter_id. intros k v Hk.
    destruct (Hkeys k) as [-> | ->]; eauto. }
  rewrite Encode_range_irrelevant.
  assert (@url.Encode listOrder m0
          = "ShareSnapshot=2020-01-01T00%3A00%3A00Z&foo=bar") as ->
    by (vm_compute; reflexivity).
  repeat split.
Qed.

End snapshot_key.

Lemma snapshot_key_kept_in_other_casing_witness :
  @isSASKey noSAS "ShareSnapshot" = false ∧ @isSASKey noSAS "foo" = false ∧
  ∃ up, @NewFileURLParts listOrder noSAS snapshotCaseURL = Some up ∧
    FileURLParts.ShareSnapshot up = "2020-01-01T00:00:00Z" ∧
    FileURLParts.UnparsedParams up
      = "ShareSnapshot=2020-01-01T00%3A00%3A00Z&foo=bar" ∧
    url.RawQuery (URL up)
      = "ShareSnapshot=2020-01-01T00%3A00%3A00Z&foo=bar&sharesnapshot=2020-01-01T00:00:00Z".
Proof.
  split; [reflexivity|]. split; [reflexivity|].
  exact (@snapshot_key_kept_in_other_casing listOrder noSAS eq_refl eq_refl).
Defined.

(** ** Parsing a query, setting by setting *)

Lemma sub_slice (s : string) (lo hi : Z) (r : string) :
  slice s lo hi = Some r → sub s lo hi = r.
Proof. unfold sub. by intros ->. Qed.

(** The map that [parseQuery] leaves is the fold of [addSetting] over the
    settings between the separators; the fuel of [parseQuery] suffices. *)
Lemma parseQuery_loop_settings (fuel : nat) (m : url.Values) (query : string)
  (err : bool) :
  (String.length query ≤ fuel)%nat →
  (url.parseQuery_loop fuel m query err).1
  = foldl addSetting m (splitBy isQuerySep query).
Proof.
  revert m query err. induction fuel as [|fuel IH]; intros m query err Hlen.
  { destruct query; [done|]. simpl in Hlen. lia. }
  cbn [url.parseQuery_loop]. case_bool_decide as Hq; [by subst|].
  rewrite IndexAny_indexBy, splitBy_cutBy. fold isQuerySep.
  pose proof (indexBy_cutBy isQuerySep query) as Hcut.
  destruct (cutBy isQuerySep query) as [a [r|]] eqn:Ecut.
  - destruct Hcut as (Hi & Ha & Hr).
    apply Z.leb_le in Hi as Hi'. rewrite Hi'.
    unfold subTo, subFrom. rewrite (sub_slice _ _ _ _ Ha), (sub_slice _ _ _ _ Hr).
    apply cutBy_Some in Ecut as (c & _ & -> & _).
    assert (String.length r ≤ fuel)%nat as Hr'.
    { pose proof (len_app a (String c r)) as E. rewrite len_String in E.
      unfold len in E. lia. }
    cbn [foldl]. unfold addSetting at 2.
    case_bool_decide as Hk; [by apply IH|].
    rewrite Index_byte.
    pose proof (indexBy_cutBy (isByte "=") a) as Hcut.
    destruct (cutBy (isByte "=") a) as [k [v|]].
    + destruct Hcut as (Hj & Hk' & Hv).
      apply Z.leb_le in Hj as ->.
      rewrite (sub_slice _ _ _ _ Hk'), (sub_slice _ _ _ _ Hv).
      destruct (url.QueryUnescape k) as [k'|]; [|by apply IH].
      destruct (url.QueryUnescape v) as [v'|]; by apply IH.
    + destruct Hcut as [-> ->]. simpl.
      destruct (url.QueryUnescape a) as [k'|]; by apply IH.
  - destruct Hcut as [-> ->]. simpl.
    rewrite bool_decide_eq_false_2 by done.
    assert (∀ m' e, (url.parseQuery_loop fuel m' "" e).1 = m') as Hend
      by (by destruct fuel).
    unfold addSetting. rewrite bool_decide_eq_false_2 by done.
    rewrite Index_byte.
    pose proof (indexBy_cutBy (isByte "=") query) as Hcut.
    destruct (cutBy (isByte "=") query) as [k [v|]].
    + destruct Hcut as (Hj & Hk' & Hv).
      apply Z.leb_le in Hj as ->. unfold subTo, subFrom.
      rewrite (sub_slice _ _ _ _ Hk'), (sub_slice _ _ _ _ Hv).
      destruct (url.QueryUnescape k) as [k'|]; [|by apply Hend].
      destruct (url.QueryUnescape v) as [v'|]; by apply Hend.
    + destruct Hcut as [-> ->]. simpl.
      destruct (url.QueryUnescape query) as [k'|]; by apply Hend.
Qed.

Lemma parseQuery_settings (m : url.Values) (query : string) :
  (url.parseQuery m query).1 = foldl addSetting m (splitBy isQuerySep query).
Proof. by apply parseQuery_loop_settings. Qed.

(** ** Escaping and unescaping *)

Lemma freeOf_app (P : ascii → bool) (a b : string) :
  freeOf P (a +:+ b) = freeOf P a && freeOf P b.
Proof.
  induction a as [|c a IH]; [done|]. rewrite app_String. simpl.
  by rewrite IH, andb_assoc.
Qed.

Lemma freeOf_weaken (P Q : ascii → bool) (s : string) :
  (∀ c, P c = true → Q c = true) → freeOf Q s = true → freeOf P s = true.
Proof.
  intros HPQ. induction s as [|c s IH]; [done|]. simpl.
  intros [Hc Hs]%andb_true_iff. rewrite IH by done.
  destruct (P c) eqn:E; [|done]. by rewrite (HPQ c E) in Hc.
Qed.

Lemma QueryEscape_cons (c : ascii) (s : string) :
  url.QueryEscape (String c s)
  = url.QueryEscape (String c "") +:+ url.QueryEscape s.
Proof.
  simpl. case_bool_decide; [done|]. by destruct (url.shouldEscape c).
Qed.

Lemma all_bytes (P : ascii → bool) :
  forallb P allBytes = true → ∀ c, P c = true.
Proof.
  intros HP c. rewrite forallb_forall in HP. apply HP.
  rewrite <- (ascii_nat_embedding c). apply in_map, in_seq.
  pose proof (nat_ascii_bounded c). lia.
Qed.

Lemma QueryEscape_byte_free (c : ascii) :
  freeOf sepOrEq (url.QueryEscape (String c "")) = true.
Proof. revert c. apply all_bytes. vm_compute. reflexivity. Qed.

Lemma QueryEscape_byte_shape (c : ascii) : escapeShape c = true.
Proof. revert c. apply all_bytes. vm_compute. reflexivity. Qed.

(** No escaped text has a separator or an equals sign in it. *)
Lemma QueryEscape_free (s : string) : freeOf sepOrEq (url.QueryEscape s) = true.
Proof.
  induction s as [|c s IH]; [done|].
  by rewrite QueryEscape_cons, freeOf_app, QueryEscape_byte_free, IH.
Qed.

Lemma unescape_escape_byte (c : ascii) (s : string) :
  url.unescape_wellformed (url.QueryEscape (String c s))
    = url.unescape_wellformed (url.QueryEscape s)
  ∧ url.unescape_decode (url.QueryEscape (String c s))
    = String c (url.unescape_decode (url.QueryEscape s)).
Proof.
  rewrite QueryEscape_cons. pose proof (QueryEscape_byte_shape c) as Hc.
  unfold escapeShape in Hc. generalize (url.QueryEscape s). intros t.
  destruct (url.QueryEscape (String c "")) as [|p [|x [|y [|? ?]]]]; try done.
  - rewrite !app_String, app_empty_l.
    apply orb_true_iff in Hc as [[Hp Hsp]%andb_true_iff|Hc].
    + apply bool_decide_eq_true in Hp as ->.
      apply bool_decide_eq_true in Hsp as ->. done.
    + apply andb_true_iff in Hc as [[Hx Hp]%andb_true_iff Hplus].
      apply bool_decide_eq_true in Hx as ->.
      apply negb_true_iff in Hp, Hplus. simpl. by rewrite !Hp, Hplus.
  - rewrite !app_String, app_empty_l.
    repeat (apply andb_true_iff in Hc as [Hc ?]).
    apply bool_decide_eq_true in Hc as ->.
    repeat match goal with
           | H : negb _ = true |- _ => apply negb_true_iff in H
           | H : bool_decide (_ = c) = true |- _ => apply bool_decide_eq_true in H
           end.
    simpl. repeat match goal with H : _ = _ |- _ => rewrite H end. done.
Qed.

(** Unescaping undoes escaping. *)
Lemma QueryUnescape_QueryEscape (s : string) :
  url.QueryUnescape (url.QueryEscape s) = Some s.
Proof.
  unfold url.QueryUnescape.
  assert (url.unescape_wellformed (url.QueryEscape s) = true
          ∧ url.unescape_decode (url.QueryEscape s) = s) as [-> ->]; [|done].
  induction s as [|c s [IHw IHd]]; [done|].
  destruct (unescape_escape_byte c s) as [-> ->]. by rewrite IHd.
Qed.

Lemma plainValue_cons (c : ascii) (v : string) :
  plainValue (String c v) = true →
  c ≠ "&"%char ∧ c ≠ ";"%char ∧ c ≠ "%"%char ∧ c ≠ "+"%char
  ∧ plainValue v = true.
Proof.
  unfold plainValue. simpl. intros [Hc Hv]%andb_true_iff.
  apply negb_true_iff, bool_decide_eq_false in Hc.
  repeat split; try done; intros ->; apply Hc; simpl;
    repeat first [by left | right].
Qed.

(** A plain value is unescaped to itself, and separates nothing. *)
Lemma plainValue_unescape (v : string) :
  plainValue v = true → url.QueryUnescape v = Some v.
Proof.
  intros Hv. unfold url.QueryUnescape.
  assert (url.unescape_wellformed v = true ∧ url.unescape_decode v = v)
    as [-> ->]; [|done].
  induction v as [|c v IH]; [done|].
  apply plainValue_cons in Hv as (_ & _ & Hp & Hplus & Hv).
  destruct (IH Hv) as [IHw IHd]. simpl.
  rewrite !(bool_decide_eq_false_2 _ Hp), (bool_decide_eq_false_2 _ Hplus).
  by rewrite IHw, IHd.
Qed.

Lemma plainValue_free (v : string) :
  plainValue v = true → freeOf isQuerySep v = true.
Proof.
  apply freeOf_weaken. intros c. unfold isQuerySep, strings.containsByte.
  intros Hc%bool_decide_eq_true. apply bool_decide_eq_true.
  simpl in *. apply elem_of_cons in Hc as [->|Hc]; [by left|].
  apply elem_of_cons in Hc as [->|Hc]; [by right; left|].
  by apply elem_of_nil in Hc.
Qed.

(** ** Parsing what [Encode] has written *)

Lemma setting_free (k v : string) : freeOf isQuerySep (setting k v) = true.
Proof.
  assert (∀ s, freeOf isQuerySep (url.QueryEscape s) = true) as Hesc.
  { intros s. apply (freeOf_weaken _ sepOrEq); [|apply QueryEscape_free].
    intros c Hc. unfold sepOrEq. by rewrite Hc. }
  unfold setting. by rewrite !freeOf_app, !Hesc.
Qed.

Lemma setting_not_empty (k v : string) : setting k v ≠ "".
Proof.
  unfold setting. intros E. apply (f_equal len) in E.
  rewrite !len_app in E. pose proof (len_nonneg (url.QueryEscape k)).
  pose proof (len_nonneg (url.QueryEscape v)).
  change (len "=") with 1 in E. change (len "") with 0 in E. lia.
Qed.

(** A setting of [Encode] is read back as its key and its value. *)
Lemma addSetting_setting (m : url.Values) (k v : string) :
  addSetting m (setting k v) = appendValue m k v.
Proof.
  unfold addSetting.
  rewrite bool_decide_eq_false_2 by apply setting_not_empty.
  unfold setting. change ("=" +:+ url.QueryEscape v)
    with (String "=" (url.QueryEscape v)).
  rewrite cutBy_app; [|..|done].
  - by rewrite !QueryUnescape_QueryEscape.
  - apply (freeOf_weaken _ sepOrEq); [|apply QueryEscape_free].
    intros c Hc. unfold sepOrEq. by rewrite Hc, orb_true_r.
Qed.

Lemma addSetting_empty (m : url.Values) : addSetting m "" = m.
Proof. done. Qed.

(** The buffer of [Encode], setting after setting. *)
Lemma settings_of_buffer (ps : list (string * string)) (buf : string)
  (m : url.Values) :
  foldl addSetting m
    (splitBy isQuerySep
       (foldl (λ buf kv,
                 (if 0 <? len buf then buf +:+ "&" else buf)
                 +:+ (url.QueryEscape kv.1 +:+ "=") +:+ url.QueryEscape kv.2)
              buf ps))
  = foldl (λ m kv, appendValue m kv.1 kv.2)
          (foldl addSetting m (splitBy isQuerySep buf)) ps.
Proof.
  revert buf. induction ps as [|[k v] ps IH]; intros buf; [done|].
  cbn [foldl]. rewrite IH. f_equal. cbn [fst snd].
  rewrite (app_assoc_s (url.QueryEscape k)).
  fold (setting k v). rewrite len_pos.
  pose proof (setting_free k v) as Hfree.
  case_bool_decide as Hbuf; simpl.
  - subst buf. rewrite app_empty_l, (splitBy_free _ _ Hfree).
    apply addSetting_setting.
  - rewrite app_assoc_s. change ("&" +:+ setting k v) with (String "&" (setting k v)).
    rewrite splitBy_app by done. rewrite (splitBy_free _ _ Hfree), foldl_app.
    apply addSetting_setting.
Qed.

Lemma foldl_bind {A B C : Type} (f : A → B → A) (g : C → list B)
  (l : list C) (a : A) :
  foldl f a (l ≫= g) = foldl (λ a x, foldl f a (g x)) a l.
Proof.
  revert a. induction l as [|x l IH]; intros a; [done|].
  cbn [mbind list_bind foldl]. change (g x ++ l ≫= g) with (g x ++ (l ≫= g)).
  by rewrite foldl_app, IH.
Qed.

Lemma foldl_pointwise {A B : Type} (f g : A → B → A) (l : list B) (a : A) :
  (∀ a x, f a x = g a x) → foldl f a l = foldl g a l.
Proof.
  intros Hfg. revert a. induction l as [|x l IH]; intros a; [done|].
  simpl. by rewrite Hfg, IH.
Qed.

Section encode_facts.
Context `{MapRange}.

(** What [Encode] writes is read back as the values of its keys, key by
    key in the sorted order. *)
Lemma parse_Encode (v m : url.Values) :
  foldl addSetting m (splitBy isQuerySep (url.Encode v))
  = foldl (appendValues v) m (merge_sort String.le ((rangeOrder v).*1)).
Proof.
  unfold url.Encode. set (keys := merge_sort String.le _).
  transitivity
    (foldl addSetting m
       (splitBy isQuerySep
          (foldl (λ buf kv,
                    (if 0 <? len buf then buf +:+ "&" else buf)
                    +:+ (url.QueryEscape kv.1 +:+ "=") +:+ url.QueryEscape kv.2)
                 "" (keys ≫= λ k, (λ x, (k, x)) <$> v !!! k)))).
  { do 2 f_equal. rewrite foldl_bind. apply foldl_pointwise.
    intros buf k. by rewrite foldl_fmap. }
  rewrite settings_of_buffer, foldl_bind. simpl.
  apply foldl_pointwise. intros m' k.
  unfold appendValues. by rewrite foldl_fmap.
Qed.

End encode_facts.

(** ** Maps of values *)

Lemma lookup_appendValue (m : url.Values) (k v k' : string) :
  appendValue m k v !! k'
  = if decide (k = k') then Some (m !!! k ++ [v]) else m !! k'.
Proof. unfold appendValue. apply lookup_insert. Qed.

Lemma appendValues_eq (v m : url.Values) (k : string) :
  appendValues v m k
  = if decide (v !!! k = []) then m else <[k := m !!! k ++ v !!! k]> m.
Proof.
  unfold appendValues. generalize (v !!! k). intros vs. revert m.
  induction vs as [|x vs IH]; intros m; [done|].
  cbn [foldl]. rewrite IH. rewrite (decide_False (P := x :: vs = [])) by done.
  unfold appendValue. rewrite lookup_total_insert_eq, insert_insert_eq.
  destruct (decide (vs = [])) as [->|]; [done|]. by rewrite <- app_assoc.
Qed.

Lemma lookup_appendValues (v m : url.Values) (ks : list string) (k : string) :
  NoDup ks →
  foldl (appendValues v) m ks !! k
  = if decide (k ∈ ks ∧ v !!! k ≠ []) then Some (m !!! k ++ v !!! k)
    else m !! k.
Proof.
  revert m. induction ks as [|k0 ks IH]; intros m Hnd.
  { cbn [foldl]. case_decide as Hd; [|done].
    by destruct Hd as [?%elem_of_nil _]. }
  apply NoDup_cons in Hnd as [Hk0 Hnd]. cbn [foldl]. rewrite IH by done.
  rewrite appendValues_eq.
  destruct (decide (k = k0)) as [->|Hne].
  - rewrite (decide_False (P := k0 ∈ ks ∧ _)) by (by intros [? _]).
    destruct (decide (v !!! k0 = [])) as [E|E].
    + rewrite decide_False; [done|]. by intros [_ ?].
    + rewrite decide_True by (split; [left|done]).
      by rewrite lookup_insert_eq.
  - assert ((if decide (v !!! k0 = []) then m
             else <[k0 := m !!! k0 ++ v !!! k0]> m) !! k = m !! k) as Hk.
    { destruct (decide (v !!! k0 = [])); [done|].
      by rewrite lookup_insert_ne by congruence. }
    rewrite !(lookup_total_alt _ k), Hk.
    destruct (decide (k ∈ ks ∧ default inhabitant (v !! k) ≠ []))
      as [[Hin Hv]|Hn].
    + rewrite decide_True by (split; [by right|done]). done.
    + rewrite decide_False; [done|].
      intros [[?|?]%elem_of_cons ?]; [done|]. by apply Hn.
Qed.

Section roundtrip_facts.
Context `{MapRange}.

(** Parsing what [Encode] has written gives the map back, when each of
    its keys has a value. *)
Lemma ParseQuery_Encode (v : url.Values) :
  allNonEmpty v → (url.ParseQuery (url.Encode v)).1 = v.
Proof.
  intros Hv. unfold url.ParseQuery. rewrite parseQuery_settings, parse_Encode.
  apply map_eq. intros k. rewrite lookup_appendValues.
  - rewrite lookup_empty, lookup_total_empty. simpl.
    rewrite lookup_total_alt.
    destruct (v !! k) as [vs|] eqn:Ek; simpl.
    + rewrite decide_True; [done|]. split; [|by eapply Hv].
      rewrite merge_sort_Permutation, rangeOrder_perm.
      apply list_elem_of_fmap. exists (k, vs). split; [done|].
      by apply elem_of_map_to_list.
    + rewrite decide_False; [done|]. by intros [_ ?].
  - rewrite merge_sort_Permutation, rangeOrder_perm.
    apply NoDup_fst_map_to_list.
Qed.

End roundtrip_facts.

(** ** Parsing a query piece after piece *)

Lemma lookup_appendMaps (m1 m2 : url.Values) (k : string) :
  appendMaps m1 m2 !! k
  = union_with (λ vs1 vs2, Some (vs1 ++ vs2)) (m1 !! k) (m2 !! k).
Proof. apply lookup_union_with. Qed.

Lemma appendMaps_empty (m : url.Values) : appendMaps m ∅ = m.
Proof.
  apply map_eq. intros k. rewrite lookup_appendMaps, lookup_empty.
  by destruct (m !! k).
Qed.

Lemma appendMaps_appendValue (m1 m2 : url.Values) (k v : string) :
  appendValue (appendMaps m1 m2) k v = appendMaps m1 (appendValue m2 k v).
Proof.
  apply map_eq. intros k'.
  rewrite lookup_appendMaps, !lookup_appendValue.
  destruct (decide (k = k')) as [<-|Hne]; [|by rewrite lookup_appendMaps].
  rewrite !lookup_total_alt, lookup_appendMaps.
  destruct (m1 !! k) as [vs1|], (m2 !! k) as [vs2|]; simpl;
    by rewrite ?app_assoc, ?app_nil_r.
Qed.

Lemma appendMaps_addSetting (m1 m2 : url.Values) (piece : string) :
  addSetting (appendMaps m1 m2) piece = appendMaps m1 (addSetting m2 piece).
Proof.
  unfold addSetting. case_bool_decide; [done|].
  destruct (cutBy (isByte "=") piece) as [k [v|]];
    destruct (url.QueryUnescape k) as [k'|]; try done;
    destruct (url.QueryUnescape _) as [v'|]; try done;
    apply appendMaps_appendValue.
Qed.

(** Parsing into a map that has entries appends to them what parsing into
    the empty map gives. *)
Lemma addSetting_accumulate (m : url.Values) (pieces : list string) :
  foldl addSetting m pieces = appendMaps m (foldl addSetting ∅ pieces).
Proof.
  induction pieces as [|piece pieces IH] using rev_ind.
  - simpl. by rewrite appendMaps_empty.
  - by rewrite !foldl_app, IH; simpl; rewrite appendMaps_addSetting.
Qed.

Lemma isQuerySep_amp : isQuerySep "&" = true.
Proof. reflexivity. Qed.

(** The pieces of a raw query are parsed one after the other. *)
Lemma parse_joinNonEmpty (pieces : list string) (m : url.Values) :
  foldl addSetting m (splitBy isQuerySep (joinNonEmpty "&" pieces))
  = foldl (λ m piece, foldl addSetting m (splitBy isQuerySep piece)) m pieces.
Proof.
  revert m. induction pieces as [|piece pieces IH]; intros m; [done|].
  cbn [joinNonEmpty foldl]. rewrite <- IH.
  case_bool_decide as Hp; [by subst|].
  case_bool_decide as Hr.
  - rewrite Hr. simpl. done.
  - change ("&" +:+ joinNonEmpty "&" pieces)
      with (String "&" (joinNonEmpty "&" pieces)).
    by rewrite splitBy_app, foldl_app by apply isQuerySep_amp.
Qed.

(** The snapshot's segment is read back as the snapshot. *)
Lemma parse_snapshot (m : url.Values) (v : string) :
  plainValue v = true →
  foldl addSetting m (splitBy isQuerySep (shareSnapshot +:+ "=" +:+ v))
  = appendValue m shareSnapshot v.
Proof.
  intros Hv. rewrite splitBy_free.
  - cbn [foldl]. unfold addSetting.
    rewrite bool_decide_eq_false_2 by done.
    change (shareSnapshot +:+ "=" +:+ v) with (shareSnapshot +:+ String "=" v).
    rewrite cutBy_app by done.
    assert (url.QueryUnescape shareSnapshot = Some shareSnapshot) as ->
      by reflexivity.
    by rewrite plainValue_unescape.
  - rewrite !freeOf_app, (plainValue_free v Hv). done.
Qed.

(** ** The effective path *)

Lemma pathSegments_app (a r : string) :
  pathSegments (a +:+ "/" +:+ r) = pathSegments a ++ pathSegments r.
Proof.
  unfold pathSegments. change ("/" +:+ r) with (String "/" r).
  by rewrite splitBy_app, filter_app.
Qed.

Lemma pathSegments_slash (r : string) : pathSegments ("/" +:+ r) = pathSegments r.
Proof. apply (pathSegments_app "" r). Qed.

Lemma pathSegments_noSlash (a : string) :
  noSlash a → pathSegments a = if decide (a = "") then [] else [a].
Proof.
  intros Ha%noSlash_free. unfold pathSegments. rewrite splitBy_free by done.
  case_decide as E.
  - by rewrite E.
  - by rewrite filter_cons_True.
Qed.

Lemma pathSegments_strip (path : string) :
  pathSegments (stripLeadingSlash path) = pathSegments path.
Proof.
  destruct path as [|c p]; [done|].
  destruct (decide (c = "/"%char)) as [->|Hc].
  - symmetry. apply (pathSegments_slash p).
  - destruct c as [[] [] [] [] [] [] [] []]; done.
Qed.

Lemma cut_Some (s a r : string) :
  cut s = (a, Some r) → s = a +:+ "/" +:+ r ∧ noSlash a.
Proof.
  intros (c & Hc & -> & Ha)%cutBy_Some.
  apply bool_decide_eq_true in Hc as ->. by apply noSlash_free in Ha.
Qed.

Lemma cut_None (s a : string) : cut s = (a, None) → a = s ∧ noSlash s.
Proof. intros [-> Hs]%cutBy_None. by apply noSlash_free in Hs. Qed.

(** The segments of the share and of what follows it. *)
Lemma shareAndPath_segments (path : string) :
  noSlash (shareAndPath path).1 ∧
  ((shareAndPath path).1 = "" → pathSegments (shareAndPath path).2 = []) →
  pathSegments path
  = if decide ((shareAndPath path).1 = "") then []
    else (shareAndPath path).1 :: pathSegments (shareAndPath path).2.
Proof.
  unfold shareAndPath.
  destruct (cut path) as [s [d|]] eqn:E; simpl; intros [Hs Hd].
  - apply cut_Some in E as [-> _].
    rewrite pathSegments_app, (pathSegments_noSlash s Hs).
    case_decide; [by apply Hd|done].
  - apply cut_None in E as [-> _]. by rewrite (pathSegments_noSlash path Hs).
Qed.

Lemma shareAndPath_noSlash_1 (path : string) : noSlash (shareAndPath path).1.
Proof.
  unfold shareAndPath. destruct (cut path) as [s [d|]] eqn:E; simpl.
  - by apply cut_Some in E as [_ ?].
  - by apply cut_None in E as [-> ?].
Qed.

(** ** The round trip *)

Section parse_then_build.
Context `{MapRange} `{SASSubParser}.

Lemma settings_Encode (v : url.Values) :
  allNonEmpty v → foldl addSetting ∅ (splitBy isQuerySep (url.Encode v)) = v.
Proof.
  intros Hv. rewrite <- parseQuery_settings. by apply ParseQuery_Encode.
Qed.

(** The effective path that [URL] rebuilds. *)
Lemma URL_path_segments (sch host s d snap unp a : string)
  (sas : SASQueryParameters) (ip : bool) :
  noSlash s →
  pathSegments (url.Path (URL (FileURLParts.mk sch host s d snap sas unp a ip)))
  = (if ip then pathSegments a else [])
    ++ (if decide (s = "") then [] else s :: pathSegments d).
Proof.
  intros Hs. unfold URL.
  cbn [url.Path FileURLParts.isIPEndpointStyle FileURLParts.accountName
       FileURLParts.ShareName FileURLParts.DirectoryOrFilePath].
  rewrite !app_empty_l.
  assert (pathSegments
            (if ip && bool_decide (a ≠ "") then "/" +:+ a else "")
          = if ip then pathSegments a else []) as Hprefix.
  { destruct ip; [|done]. simpl. case_bool_decide as Ha.
    - apply pathSegments_slash.
    - by rewrite Ha. }
  destruct (decide (s = "")) as [->|Hne].
  - rewrite bool_decide_eq_false_2 by (by intros ?).
    by rewrite Hprefix, app_nil_r.
  - rewrite (bool_decide_eq_true_2 _ Hne).
    destruct (decide (d = "")) as [->|Hd].
    + rewrite (bool_decide_eq_false_2 ("" ≠ "")) by (by intros ?).
      rewrite pathSegments_app, Hprefix, (pathSegments_noSlash s Hs).
      by rewrite decide_False.
    + rewrite (bool_decide_eq_true_2 (d ≠ "")) by done.
      rewrite !pathSegments_app, Hprefix, (pathSegments_noSlash s Hs).
      by rewrite decide_False, <- app_assoc.
Qed.

Lemma built_path_segments (ip : bool) (path sch host snap unp : string)
  (sas : SASQueryParameters) :
  shareNamed ip path →
  let P := pathParts ip (stripLeadingSlash path) in
  pathSegments
    (url.Path (URL (FileURLParts.mk sch host P.1.2 P.2 snap sas unp P.1.1 ip)))
  = pathSegments path.
Proof.
  unfold shareNamed. rewrite <- (pathSegments_strip path).
  generalize (stripLeadingSlash path). intros p. unfold pathParts.
  destruct ip.
  - destruct (cut p) as [a [rest|]] eqn:E; cbn [fst snd]; intros Hshare.
    + apply cut_Some in E as [-> Ha].
      rewrite URL_path_segments by apply shareAndPath_noSlash_1.
      rewrite pathSegments_app. f_equal. symmetry.
      apply shareAndPath_segments. split; [apply shareAndPath_noSlash_1|done].
    + apply cut_None in E as [-> Ha].
      rewrite URL_path_segments by done. simpl. by rewrite app_nil_r.
  - cbn [fst snd]. intros Hshare.
    rewrite URL_path_segments by apply shareAndPath_noSlash_1.
    symmetry. apply shareAndPath_segments.
    split; [apply shareAndPath_noSlash_1|done].
Qed.

(** The snapshot that is read from a query's map with a canonical
    snapshot key, whatever the order of the [range]. *)
Lemma snapshotStep_canonical (m : url.Values) :
  snapshotCanonical m →
  ∃ snap, snapshotStep m = (snap, delete shareSnapshot m) ∧
    ((snap = "" ∧ m !! shareSnapshot = None)
     ∨ (snap ≠ "" ∧ plainValue snap = true ∧ m !! shareSnapshot = Some [snap])).
Proof.
  intros Hm. unfold snapshotStep.
  destruct (caseInsensitiveValues.Get m shareSnapshot) as [vs [|]] eqn:E.
  - apply Get_found in E as (k & Hk & Hlow).
    destruct (Hm k vs Hk Hlow) as (-> & v & -> & Hv & Hplain).
    exists v. split; [done|]. right. done.
  - apply Get_not_found in E as [-> Hnone].
    exists "". rewrite delete_id by (by apply Hnone). split; [done|].
    left. split; [done|]. by apply Hnone.
Qed.

(** The query of the rebuilt URL is parsed to the map of the query that
    was given. *)
Lemma Query_round_trip (u : url.URL) (up : FileURLParts) :
  snapshotCanonical (url.Query u) →
  sasLossless (delete shareSnapshot (url.Query u)) →
  NewFileURLParts u = Some up →
  url.Query (URL up) = url.Query u.
Proof.
  intros Hsnap Hsas. rewrite NewFileURLParts_eq. intros [= <-].
  unfold url.Query at 1, url.ParseQuery.
  rewrite parseQuery_settings, rawQuery_join, parse_joinNonEmpty.
  unfold snapshotSegment.
  cbn [foldl FileURLParts.UnparsedParams FileURLParts.ShareSnapshot
       FileURLParts.SAS].
  set (m := url.Query u) in *.
  destruct (snapshotStep_canonical m Hsnap) as (snap & -> & Hcases).
  cbn [fst snd]. set (m' := delete shareSnapshot m) in *.
  assert (allNonEmpty (filter (λ kv, isSASKey kv.1 = false) m')) as Hne.
  { intros k vs [Hk _]%map_lookup_filter_Some.
    apply lookup_delete_Some in Hk as [_ Hk]. by eapply Query_nonEmpty. }
  rewrite (settings_Encode _ Hne).
  rewrite (addSetting_accumulate _ (splitBy _ (SAS_Encode _))).
  rewrite <- (parseQuery_settings ∅). fold (url.ParseQuery (SAS_Encode (readSAS m' true))).
  rewrite Hsas.
  apply map_eq. intros k. rewrite lookup_appendMaps.
  assert (∀ P `{!∀ x, Decision (P x)},
            filter P m' !! shareSnapshot = (None : option (list string)))
    as Hfss.
  { intros P ?. apply map_lookup_filter_None_2. left.
    apply lookup_delete_eq. }
  assert (k ≠ shareSnapshot →
          union_with (λ vs1 vs2 : list string, Some (vs1 ++ vs2))
            (filter (λ kv, isSASKey kv.1 = false) m' !! k)
            (filter (λ kv, isSASKey kv.1 = true) m' !! k) = m !! k) as Hother.
  { intros Hk. rewrite !map_lookup_filter. unfold m'.
    rewrite lookup_delete_ne by done.
    destruct (m !! k) as [vs|]; [|done]. simpl.
    destruct (isSASKey k); simpl;
      rewrite ?option_guard_True, ?option_guard_False by done; done. }
  destruct Hcases as [[-> Hss]|(Hsnap' & Hplain & Hss)].
  - rewrite bool_decide_eq_false_2 by (by intros ?).
    change (splitBy isQuerySep "") with [""]. cbn [foldl].
    rewrite addSetting_empty.
    destruct (decide (k = shareSnapshot)) as [->|Hk]; [|by apply Hother].
    by rewrite !Hfss, Hss.
  - rewrite (bool_decide_eq_true_2 _ Hsnap'), (parse_snapshot _ _ Hplain).
    rewrite lookup_appendValue.
    destruct (decide (shareSnapshot = k)) as [<-|Hk].
    + rewrite lookup_total_alt, !Hfss, Hss. done.
    + apply Hother. congruence.
Qed.

(** C1 (amended): the rebuilt URL is observably equivalent to the URL that
    was parsed (same scheme, host, effective path, and associations of the
    query) when the snapshot's key is in the query in lower case only (if it
    is there), with one plain, non-empty value; the path names a share
    wherever it names a directory or a file; and the SAS sub-parser writes
    back the parameters it has taken. *)
Theorem round_trip (u : url.URL) :
  snapshotCanonical (url.Query u) →
  shareNamed (isIPEndpointStyle u) (url.Path u) →
  sasLossless (delete shareSnapshot (url.Query u)) →
  ∃ up, NewFileURLParts u = Some up ∧ observablyEquivalent (URL up) u.
Proof.
  intros Hsnap Hpath Hsas.
  destruct (NewFileURLParts u) as [up|] eqn:Hup;
    [|by rewrite NewFileURLParts_eq in Hup].
  exists up. split; [done|].
  pose proof (Query_round_trip u up Hsnap Hsas Hup) as Hq.
  rewrite NewFileURLParts_eq in Hup. injection Hup as <-.
  split; [done|]. split; [done|]. split.
  - by apply built_path_segments.
  - unfold associations. by rewrite Hq.
Qed.

End parse_then_build.

Lemma snapshotCanonicalb_correct (m : url.Values) :
  snapshotCanonicalb m = true → snapshotCanonical m.
Proof.
  unfold snapshotCanonicalb. rewrite forallb_forall.
  intros Hall k vs Hk Hlow.
  assert (In (k, vs) (map_to_list m)) as Hin
    by (by apply list_elem_of_In, elem_of_map_to_list).
  apply Hall in Hin. cbn [fst snd] in Hin.
  rewrite (bool_decide_eq_true_2 _ Hlow) in Hin.
  apply andb_true_iff in Hin as [Hkey Hvs].
  apply bool_decide_eq_true in Hkey. split; [done|].
  destruct vs as [|v [|? ?]]; try done. exists v.
  apply andb_true_iff in Hvs as [Hv%negb_true_iff%bool_decide_eq_false Hplain].
  done.
Qed.

Lemma round_trip_witness :
  snapshotCanonical (url.Query tokenURL) ∧
  shareNamed (isIPEndpointStyle tokenURL) (url.Path tokenURL) ∧
  @sasLossless (@tokenSAS listOrder) (delete shareSnapshot (url.Query tokenURL)) ∧
  ∃ up, @NewFileURLParts listOrder (@tokenSAS listOrder) tokenURL = Some up ∧
    observablyEquivalent (URL up) tokenURL.
Proof.
  assert (snapshotCanonical (url.Query tokenURL)) as Hsnap
    by (apply snapshotCanonicalb_correct; vm_compute; reflexivity).
  assert (shareNamed (isIPEndpointStyle tokenURL) (url.Path tokenURL)) as Hpath
    by (unfold shareNamed; vm_compute; intros E; discriminate E).
  assert (@sasLossless (@tokenSAS listOrder)
            (delete shareSnapshot (url.Query tokenURL))) as Hsas
    by (unfold sasLossless; vm_compute; reflexivity).
  split; [exact Hsnap|]. split; [exact Hpath|]. split; [exact Hsas|].
  exact (@round_trip listOrder (@tokenSAS listOrder) tokenURL Hsnap Hpath Hsas).
Defined.

(** C1, as it was stated: of a snapshot given twice the first value alone
    comes back; of a path with no share before the directory nothing comes
    back. *)
Lemma round_trip_fails :
  (∃ up, @NewFileURLParts listOrder noSAS twoSnapshotsURL = Some up ∧
     url.RawQuery (URL up) = "sharesnapshot=a" ∧
     ¬ observablyEquivalent (URL up) twoSnapshotsURL) ∧
  (∃ up, @NewFileURLParts listOrder noSAS noShareURL = Some up ∧
     url.Path (URL up) = "" ∧
     ¬ observablyEquivalent (URL up) noShareURL).
Proof.
  split; (eexists; split; [vm_compute; reflexivity|]);
    (split; [vm_compute; reflexivity|]).
  - intros (_ & _ & _ & Hq). apply Permutation_length in Hq.
    vm_compute in Hq. discriminate Hq.
  - intros (_ & _ & Hp & _). vm_compute in Hp. discriminate Hp.
Qed.

(** * Further properties of the package *)

(** ** What [NewFileURLParts] keeps, takes and leaves *)

Section parts.
Context `{MapRange} `{SASSubParser}.

Lemma snapshotStep_snd (m : url.Values) :
  (snapshotStep m).2 = delete shareSnapshot m.
Proof.
  unfold snapshotStep.
  destruct (caseInsensitiveValues.Get m shareSnapshot) as [vs [|]] eqn:E;
    [done|].
  apply Get_not_found in E as [_ Hnone]. simpl.
  symmetry. apply delete_id. by apply Hnone.
Qed.

Lemma allNonEmpty_unparsed (u : url.URL) :
  allNonEmpty (filter (λ kv, isSASKey kv.1 = false)
                 (delete shareSnapshot (url.Query u))).
Proof.
  intros k vs [Hk _]%map_lookup_filter_Some.
  apply lookup_delete_Some in Hk as [_ Hk]. by eapply Query_nonEmpty.
Qed.

(** X1: the scheme and the host go through [NewFileURLParts] and [URL]
    as they are, for every URL; the style that is recorded is the one of
    the host. *)
Theorem scheme_and_host_kept (u : url.URL) :
  ∃ up, NewFileURLParts u = Some up ∧
    FileURLParts.Scheme up = url.Scheme u ∧
    FileURLParts.Host up = url.Host u ∧
    FileURLParts.isIPEndpointStyle up = isIPEndpointStyle u ∧
    url.Scheme (URL up) = url.Scheme u ∧
    url.Host (URL up) = url.Host u ∧
    isIPEndpointStyle (URL up) = isIPEndpointStyle u.
Proof. eexists. split; [apply NewFileURLParts_eq|]. repeat split. Qed.

(** X2: the unparsed parameters, parsed again, are the entries of the
    query's map without the key [sharesnapshot] (in lower case) and without
    the keys of the SAS sub-parser: every other key keeps its values, in
    their order, and nothing is added. *)
Theorem unparsed_params_parse_back (u : url.URL) :
  ∃ up, NewFileURLParts u = Some up ∧
    (url.ParseQuery (FileURLParts.UnparsedParams up)).1
    = filter (λ kv, isSASKey kv.1 = false)
        (delete shareSnapshot (url.Query u)).
Proof.
  eexists. split; [apply NewFileURLParts_eq|].
  cbn [FileURLParts.UnparsedParams]. rewrite snapshotStep_snd.
  apply ParseQuery_Encode, allNonEmpty_unparsed.
Qed.

(** X3: the snapshot is the first value of a key of the query that is
    [sharesnapshot] in some casing; where the query has no such key the
    snapshot is empty. *)
Theorem snapshot_first_value (u : url.URL) :
  ∃ up, NewFileURLParts u = Some up ∧
    ((∃ k, is_Some (url.Query u !! k) ∧ strings.ToLower k = shareSnapshot) →
     ∃ k vs, url.Query u !! k = Some (FileURLParts.ShareSnapshot up :: vs)
             ∧ strings.ToLower k = shareSnapshot) ∧
    ((∀ k, strings.ToLower k = shareSnapshot → url.Query u !! k = None) →
     FileURLParts.ShareSnapshot up = "").
Proof.
  eexists. split; [apply NewFileURLParts_eq|].
  cbn [FileURLParts.ShareSnapshot]. unfold snapshotStep.
  destruct (caseInsensitiveValues.Get (url.Query u) shareSnapshot)
    as [vs [|]] eqn:E; cbn [fst].
  - apply Get_found in E as (k & Hk & Hlow). split.
    + intros _. exists k. pose proof (Query_nonEmpty u k vs Hk) as Hne.
      destruct vs as [|v vs]; [done|]. by exists vs.
    + intros Hnone. by rewrite (Hnone k Hlow) in Hk.
  - apply Get_not_found in E as [_ Hnone]. split; [|done].
    intros (k & [vs' Hk] & Hlow). by rewrite (Hnone k Hlow) in Hk.
Qed.

(** X4: neither the account name nor the share name that [NewFileURLParts]
    returns has a slash in it. *)
Theorem names_without_slash (u : url.URL) :
  ∃ up, NewFileURLParts u = Some up ∧
    noSlash (FileURLParts.accountName up) ∧
    noSlash (FileURLParts.ShareName up).
Proof.
  eexists. split; [apply NewFileURLParts_eq|].
  cbn [FileURLParts.accountName FileURLParts.ShareName]. unfold pathParts.
  destruct (isIPEndpointStyle u).
  - destruct (cut _) as [a [rest|]] eqn:E; cbn [fst snd].
    + apply cut_Some in E as [_ Ha]. split; [done|].
      apply shareAndPath_noSlash_1.
    + by apply cut_None in E as [-> Ha].
  - split; [done|]. apply shareAndPath_noSlash_1.
Qed.

(** X5: a path is parsed as the same path with a slash before it, when it
    does not begin with a slash itself. *)
Theorem leading_slash_optional (u : url.URL) (path : string) :
  stripLeadingSlash path = path →
  NewFileURLParts (withPath path u)
  = NewFileURLParts (withPath ("/" +:+ path) u).
Proof.
  intros Hpath. rewrite !NewFileURLParts_eq.
  change (stripLeadingSlash (url.Path (withPath ("/" +:+ path) u))) with path.
  change (url.Path (withPath path u)) with path. by rewrite Hpath.
Qed.

End parts.

Lemma leading_slash_optional_witness :
  stripLeadingSlash "myshare/dir" = "myshare/dir" ∧
  @NewFileURLParts listOrder noSAS (withPath "myshare/dir" namedURL)
  = @NewFileURLParts listOrder noSAS (withPath ("/" +:+ "myshare/dir") namedURL).
Proof.
  split; [reflexivity|].
  exact (@leading_slash_optional listOrder noSAS namedURL "myshare/dir" eq_refl).
Defined.

(** ** The case-insensitive lookup and the order of the [range] *)

Section lookup.
Context `{MapRange}.


End lookup.

(** Where a key of the map is the given key up to casing, [Get] returns its
    values under the order of the [range] that visits it first. *)
Lemma Get_keyFirst (values : url.Values) (key k : string) (v : list string) :
  values !! k = Some v →
  strings.ToLower k = strings.ToLower key →
  @caseInsensitiveValues.Get (keyFirst k) values key = (v, true).
Proof.
  intros Hk Hlow. unfold caseInsensitiveValues.Get.
  cbn [rangeOrder keyFirst]. rewrite Hk.
  cbn [caseInsensitiveValues.Get_loop].
  by rewrite bool_decide_eq_true_2.
Qed.

(** The snapshot step under two orders of the [range], where at most one key
    of the map is the snapshot's key up to casing. *)
Lemma snapshotStep_order (R1 R2 : MapRange) (m : url.Values) :
  (∀ k1 k2, is_Some (m !! k1) → is_Some (m !! k2) →
     strings.ToLower k1 = shareSnapshot → strings.ToLower k2 = shareSnapshot →
     k1 = k2) →
  @snapshotStep R1 m = @snapshotStep R2 m.
Proof.
  intros Huniq. unfold snapshotStep.
  destruct (@caseInsensitiveValues.Get R1 m shareSnapshot) as [v [|]] eqn:E.
  - apply Get_found in E as (k & Hk & Hlow).
    rewrite (@Get_unique R2 m shareSnapshot k v Hk Hlow); [done|].
    intros k' Hk' Hlow'. by apply Huniq; eauto.
  - apply Get_not_found in E as [-> Hnone].
    destruct (@caseInsensitiveValues.Get R2 m shareSnapshot) as [v [|]] eqn:E2;
      [|done].
    apply Get_found in E2 as (k & Hk & Hlow). by rewrite (Hnone k Hlow) in Hk.
Qed.

(** X7: the parts that [NewFileURLParts] returns do not depend on the order
    in which the [range] visits the query's map, as long as at most one key
    of the query is [sharesnapshot] up to casing. *)
Theorem parts_independent_of_range (R1 R2 : MapRange) `{SASSubParser}
  (u : url.URL) :
  (∀ k1 k2, is_Some (url.Query u !! k1) → is_Some (url.Query u !! k2) →
     strings.ToLower k1 = shareSnapshot → strings.ToLower k2 = shareSnapshot →
     k1 = k2) →
  @NewFileURLParts R1 _ u = @NewFileURLParts R2 _ u.
Proof.
  intros Huniq. rewrite !NewFileURLParts_eq.
  rewrite (snapshotStep_order R1 R2 _ Huniq).
  by rewrite (@Encode_range_irrelevant R1), (@Encode_range_irrelevant R2).
Qed.

Lemma parts_independent_of_range_witness :
  (∀ k1 k2, is_Some (url.Query namedURL !! k1) →
     is_Some (url.Query namedURL !! k2) →
     strings.ToLower k1 = shareSnapshot → strings.ToLower k2 = shareSnapshot →
     k1 = k2) ∧
  @NewFileURLParts (keyFirst "foo") noSAS namedURL
  = @NewFileURLParts listOrder noSAS namedURL.
Proof.
  assert (∀ k1 k2, is_Some (url.Query namedURL !! k1) →
            is_Some (url.Query namedURL !! k2) →
            strings.ToLower k1 = shareSnapshot →
            strings.ToLower k2 = shareSnapshot → k1 = k2) as Huniq.
  { assert (url.Query namedURL
            = <["sharesnapshot" := ["2020-01-01T00:00:00Z"]]>
                (<["foo" := ["bar"]]> ∅)) as -> by (vm_compute; reflexivity).
    assert (∀ k, is_Some ((<["sharesnapshot" := ["2020-01-01T00:00:00Z"]]>
                             (<["foo" := ["bar"]]> ∅) : url.Values) !! k) →
                 strings.ToLower k = shareSnapshot → k = "sharesnapshot")
      as Hkey.
    { intros k [v Hk] Hlow.
      apply lookup_insert_Some in Hk as [[<- _]|[_ Hk]]; [done|].
      apply lookup_insert_Some in Hk as [[<- _]|[_ Hk]]; [done|].
      by rewrite lookup_empty in Hk. }
    intros k1 k2 H1 H2 L1 L2. by rewrite (Hkey k1 H1 L1), (Hkey k2 H2 L2). }
  split; [exact Huniq|].
  exact (@parts_independent_of_range (keyFirst "foo") listOrder noSAS
           namedURL Huniq).
Defined.

(** X8: where the query has the snapshot's key in two casings, either
    key's first value is the snapshot that [NewFileURLParts] returns,
    under some order of the [range]. *)
Theorem snapshot_depends_on_range `{SASSubParser} (u : url.URL)
  (k : string) (v : string) (vs : list string) :
  url.Query u !! k = Some (v :: vs) →
  strings.ToLower k = shareSnapshot →
  ∃ up, @NewFileURLParts (keyFirst k) _ u = Some up ∧
    FileURLParts.ShareSnapshot up = v.
Proof.
  intros Hk Hlow. eexists. split; [apply NewFileURLParts_eq|].
  cbn [FileURLParts.ShareSnapshot]. unfold snapshotStep.
  by rewrite (Get_keyFirst _ shareSnapshot k (v :: vs) Hk Hlow).
Qed.

Lemma snapshot_depends_on_range_witness :
  (url.Query twoCasingsURL !! "ShareSnapshot" = Some ["a"] ∧
   strings.ToLower "ShareSnapshot" = shareSnapshot ∧
   ∃ up, @NewFileURLParts (keyFirst "ShareSnapshot") noSAS twoCasingsURL
         = Some up ∧ FileURLParts.ShareSnapshot up = "a") ∧
  (url.Query twoCasingsURL !! "sharesnapshot" = Some ["b"] ∧
   strings.ToLower "sharesnapshot" = shareSnapshot ∧
   ∃ up, @NewFileURLParts (keyFirst "sharesnapshot") noSAS twoCasingsURL
         = Some up ∧ FileURLParts.ShareSnapshot up = "b").
Proof.
  assert (url.Query twoCasingsURL !! "ShareSnapshot" = Some ["a"]) as Ha
    by (vm_compute; reflexivity).
  assert (url.Query twoCasingsURL !! "sharesnapshot" = Some ["b"]) as Hb
    by (vm_compute; reflexivity).
  split; (split; [eassumption|]); (split; [reflexivity|]).
  - exact (@snapshot_depends_on_range noSAS twoCasingsURL "ShareSnapshot" "a" []
             Ha eq_refl).
  - exact (@snapshot_depends_on_range noSAS twoCasingsURL "sharesnapshot" "b" []
             Hb eq_refl).
Defined.

(** ** Building, then parsing *)

Section build_then_parse.
Context `{MapRange} `{SASSubParser}.

Lemma URL_Path_pathOfParts (up : FileURLParts) :
  url.Path (URL up)
  = pathOfParts (FileURLParts.isIPEndpointStyle up)
      (FileURLParts.accountName up) (FileURLParts.ShareName up)
      (FileURLParts.DirectoryOrFilePath up).
Proof. by destruct up. Qed.

Lemma stripLeadingSlash_slash (r : string) : stripLeadingSlash ("/" +:+ r) = r.
Proof. done. Qed.

(** The share and what follows it, in the path that [URL] builds of them. *)
Lemma shareAndPath_built (s d : string) :
  noSlash s → s ≠ "" →
  shareAndPath (s +:+ (if bool_decide (d ≠ "") then "/" +:+ d else "")) = (s, d).
Proof.
  intros Hs Hne. case_bool_decide as Hd.
  - by apply shareAndPath_app.
  - rewrite Hd, app_empty_r. by apply shareAndPath_noSlash.
Qed.

Lemma pathOfParts_eq (ip : bool) (a s d : string) :
  pathOfParts ip a s d
  = (if ip && bool_decide (a ≠ "") then "/" +:+ a else "")
    +:+ (if bool_decide (s ≠ "")
         then "/" +:+ s +:+ (if bool_decide (d ≠ "") then "/" +:+ d else "")
         else "").
Proof.
  unfold pathOfParts, URL.
  cbn [url.Path FileURLParts.isIPEndpointStyle FileURLParts.accountName
       FileURLParts.ShareName FileURLParts.DirectoryOrFilePath].
  rewrite !app_empty_l.
  destruct (ip && bool_decide (a ≠ "")), (bool_decide (s ≠ "")),
    (bool_decide (d ≠ "")); by rewrite ?app_empty_l, ?app_empty_r, ?app_assoc_s.
Qed.

(** Parsing the path that [URL] builds of well-formed names gives the names
    back. *)
Lemma pathParts_pathOfParts (ip : bool) (a s d : string) :
  noSlash a → noSlash s → (s = "" → d = "") → (ip = true → a = "" → s = "") →
  pathParts ip (stripLeadingSlash (pathOfParts ip a s d))
  = (if ip then a else "", s, d).
Proof.
  intros Ha Hs Hsd Has. rewrite pathOfParts_eq. unfold pathParts.
  destruct (decide (s = "")) as [->|Hne].
  - rewrite (Hsd eq_refl). rewrite (bool_decide_eq_false_2 ("" ≠ ""))
      by (by intros ?).
    rewrite app_empty_r. destruct ip; [|done]. simpl.
    case_bool_decide as Hane.
    + rewrite stripLeadingSlash_slash. by rewrite cut_noSlash.
    + by rewrite Hane.
  - rewrite (bool_decide_eq_true_2 (s ≠ "")) by done.
    destruct ip; simpl.
    + rewrite bool_decide_eq_true_2 by (intros E; by apply Hne, Has).
      rewrite app_assoc_s, stripLeadingSlash_slash, cut_app_slash by done.
      by rewrite shareAndPath_built.
    + rewrite !app_empty_l. by rewrite shareAndPath_built.
Qed.

(** X9: the path that [URL] builds is empty or begins with a slash. *)
Theorem URL_path_absolute (up : FileURLParts) :
  url.Path (URL up) = "" ∨ ∃ rest, url.Path (URL up) = "/" +:+ rest.
Proof.
  rewrite URL_Path_pathOfParts, pathOfParts_eq.
  destruct (_ && _).
  - right. eexists. by rewrite app_assoc_s.
  - rewrite app_empty_l. case_bool_decide; [|by left].
    right. by eexists.
Qed.

(** X10: the names of well-formed parts come back when what [URL] builds
    of them is parsed, in the style of the host: the account name (in the IP
    endpoint style), the share name, and the directory or file path; and
    [URL] builds the same path of them again. *)
Theorem parse_after_build (up : FileURLParts) :
  wellFormedParts up →
  isIPEndpointStyle (URL up) = FileURLParts.isIPEndpointStyle up →
  ∃ up', NewFileURLParts (URL up) = Some up' ∧
    FileURLParts.accountName up'
    = (if FileURLParts.isIPEndpointStyle up then FileURLParts.accountName up
       else "") ∧
    FileURLParts.ShareName up' = FileURLParts.ShareName up ∧
    FileURLParts.DirectoryOrFilePath up' = FileURLParts.DirectoryOrFilePath up ∧
    url.Path (URL up') = url.Path (URL up).
Proof.
  intros (Ha & Hs & Hsd & Has) Hip. eexists.
  split; [apply NewFileURLParts_eq|].
  rewrite Hip, (URL_Path_pathOfParts up), pathParts_pathOfParts by done.
  cbn [FileURLParts.accountName FileURLParts.ShareName
       FileURLParts.DirectoryOrFilePath fst snd].
  repeat split. rewrite URL_Path_pathOfParts.
  cbn [FileURLParts.accountName FileURLParts.ShareName
       FileURLParts.DirectoryOrFilePath FileURLParts.isIPEndpointStyle].
  rewrite !pathOfParts_eq. by destruct (FileURLParts.isIPEndpointStyle up).
Qed.

(** X11: a path with a share, after the account in the IP endpoint style,
    comes back byte for byte: [/share], [/share/rest],
    [/account/share], [/account/share/rest], where the rest is not empty
    and may have slashes, also at its end. *)
Theorem well_formed_path_comes_back (u : url.URL) (a s d : string) :
  noSlash s → s ≠ "" →
  (isIPEndpointStyle u = true → noSlash a ∧ a ≠ "") →
  url.Path u
  = (if isIPEndpointStyle u then "/" +:+ a else "")
    +:+ "/" +:+ s +:+ (if bool_decide (d ≠ "") then "/" +:+ d else "") →
  ∃ up, NewFileURLParts u = Some up ∧ url.Path (URL up) = url.Path u.
Proof.
  intros Hs Hne Ha Hpath. eexists. split; [apply NewFileURLParts_eq|].
  rewrite URL_Path_pathOfParts.
  cbn [FileURLParts.accountName FileURLParts.ShareName
       FileURLParts.DirectoryOrFilePath FileURLParts.isIPEndpointStyle].
  assert (url.Path u
          = pathOfParts (isIPEndpointStyle u)
              (if isIPEndpointStyle u then a else "") s d) as Hbuilt.
  { rewrite Hpath, pathOfParts_eq, (bool_decide_eq_true_2 (s ≠ "")) by done.
    destruct (isIPEndpointStyle u); [|done].
    destruct (Ha eq_refl) as [_ Hane]. simpl.
    by rewrite (bool_decide_eq_true_2 (a ≠ "")). }
  rewrite Hbuilt at 1 2 3. rewrite pathParts_pathOfParts.
  - cbn [fst snd]. rewrite Hbuilt. by destruct (isIPEndpointStyle u).
  - destruct (isIPEndpointStyle u); [by apply Ha|done].
  - done.
  - done.
  - intros Hip E. rewrite Hip in E. by destruct (Ha Hip).
Qed.

(** The query of what [URL] builds, with a plain snapshot. *)
Lemma Query_URL_snapshot (up : FileURLParts) :
  FileURLParts.ShareSnapshot up ≠ "" →
  plainValue (FileURLParts.ShareSnapshot up) = true →
  url.Query (URL up)
  = appendMaps
      (appendValue (url.ParseQuery (FileURLParts.UnparsedParams up)).1
         shareSnapshot (FileURLParts.ShareSnapshot up))
      (url.ParseQuery (SAS_Encode (FileURLParts.SAS up))).1.
Proof.
  intros Hv Hplain. unfold url.Query, url.ParseQuery.
  rewrite !parseQuery_settings, rawQuery_join, parse_joinNonEmpty.
  unfold snapshotSegment. cbn [foldl].
  rewrite (bool_decide_eq_true_2 _ Hv), (parse_snapshot _ _ Hplain).
  apply addSetting_accumulate.
Qed.

(** X12: a snapshot that a caller has set comes back when what [URL] builds
    is parsed, whatever the order of the [range]: for a plain, non-empty
    snapshot, where neither the unparsed parameters nor the encoded SAS
    parameters have the snapshot's key in any casing. *)
Theorem snapshot_read_back (up : FileURLParts) :
  FileURLParts.ShareSnapshot up ≠ "" →
  plainValue (FileURLParts.ShareSnapshot up) = true →
  (∀ k, strings.ToLower k = shareSnapshot →
        (url.ParseQuery (FileURLParts.UnparsedParams up)).1 !! k = None) →
  (∀ k, strings.ToLower k = shareSnapshot →
        (url.ParseQuery (SAS_Encode (FileURLParts.SAS up))).1 !! k = None) →
  ∃ up', NewFileURLParts (URL up) = Some up' ∧
    FileURLParts.ShareSnapshot up' = FileURLParts.ShareSnapshot up.
Proof.
  intros Hv Hplain Hunp Hsas. eexists. split; [apply NewFileURLParts_eq|].
  cbn [FileURLParts.ShareSnapshot]. rewrite (Query_URL_snapshot up Hv Hplain).
  set (M := (url.ParseQuery (FileURLParts.UnparsedParams up)).1) in *.
  set (N := (url.ParseQuery (SAS_Encode (FileURLParts.SAS up))).1) in *.
  set (v := FileURLParts.ShareSnapshot up) in *.
  assert (∀ k, strings.ToLower k = shareSnapshot →
               appendMaps (appendValue M shareSnapshot v) N !! k
               = if decide (shareSnapshot = k) then Some [v] else None) as Hlook.
  { intros k Hlow. rewrite lookup_appendMaps, lookup_appendValue.
    destruct (decide (shareSnapshot = k)) as [<-|Hk].
    - rewrite lookup_total_alt, Hunp, Hsas by done. done.
    - by rewrite Hunp, Hsas. }
  unfold snapshotStep.
  rewrite (Get_unique _ shareSnapshot shareSnapshot [v]); [done|..].
  - by rewrite Hlook, decide_True.
  - done.
  - intros k [vs Hk] Hlow. rewrite Hlook in Hk by exact Hlow.
    by case_decide.
Qed.

End build_then_parse.

Lemma parse_after_build_witness :
  wellFormedParts ipParts ∧
  isIPEndpointStyle (URL ipParts) = FileURLParts.isIPEndpointStyle ipParts ∧
  ∃ up', @NewFileURLParts listOrder noSAS (URL ipParts) = Some up' ∧
    FileURLParts.accountName up' = "myaccount" ∧
    FileURLParts.ShareName up' = "myshare" ∧
    FileURLParts.DirectoryOrFilePath up' = "dir/file.txt" ∧
    url.Path (URL up') = url.Path (URL ipParts).
Proof.
  assert (wellFormedParts ipParts) as Hwf.
  { split; [reflexivity|]. split; [reflexivity|]. split.
    - intros E. cbv in E. discriminate E.
    - intros _ E. cbv in E. discriminate E. }
  assert (isIPEndpointStyle (URL ipParts)
          = FileURLParts.isIPEndpointStyle ipParts) as Hip
    by (vm_compute; reflexivity).
  split; [exact Hwf|]. split; [exact Hip|].
  exact (@parse_after_build listOrder noSAS ipParts Hwf Hip).
Defined.

Lemma well_formed_path_comes_back_witness :
  noSlash "myshare" ∧ "myshare" ≠ "" ∧
  (isIPEndpointStyle ipURL = true → noSlash "myaccount" ∧ "myaccount" ≠ "") ∧
  url.Path ipURL
  = (if isIPEndpointStyle ipURL then "/" +:+ "myaccount" else "")
    +:+ "/" +:+ "myshare"
    +:+ (if bool_decide ("dir/file.txt" ≠ "") then "/" +:+ "dir/file.txt" else "") ∧
  ∃ up, @NewFileURLParts listOrder noSAS ipURL = Some up ∧
    url.Path (URL up) = url.Path ipURL.
Proof.
  assert (noSlash "myshare") as Hs by reflexivity.
  assert ("myshare" ≠ "") as Hne by (intros E; discriminate E).
  assert (isIPEndpointStyle ipURL = true → noSlash "myaccount" ∧ "myaccount" ≠ "")
    as Ha by (intros _; split; [reflexivity|intros E; discriminate E]).
  assert (url.Path ipURL
          = (if isIPEndpointStyle ipURL then "/" +:+ "myaccount" else "")
            +:+ "/" +:+ "myshare"
            +:+ (if bool_decide ("dir/file.txt" ≠ "")
                 then "/" +:+ "dir/file.txt" else "")) as Hpath
    by (vm_compute; reflexivity).
  split; [exact Hs|]. split; [exact Hne|]. split; [exact Ha|].
  split; [exact Hpath|].
  exact (@well_formed_path_comes_back listOrder noSAS ipURL "myaccount"
           "myshare" "dir/file.txt" Hs Hne Ha Hpath).
Defined.

Lemma snapshot_read_back_witness :
  FileURLParts.ShareSnapshot ipParts ≠ "" ∧
  plainValue (FileURLParts.ShareSnapshot ipParts) = true ∧
  (∀ k, strings.ToLower k = shareSnapshot →
        (url.ParseQuery (FileURLParts.UnparsedParams ipParts)).1 !! k = None) ∧
  (∀ k, strings.ToLower k = shareSnapshot →
        (url.ParseQuery (SAS_Encode (FileURLParts.SAS ipParts))).1 !! k = None) ∧
  ∃ up', @NewFileURLParts listOrder noSAS (URL ipParts) = Some up' ∧
    FileURLParts.ShareSnapshot up' = "2020-01-01T00:00:00Z".
Proof.
  assert (FileURLParts.ShareSnapshot ipParts ≠ "") as Hv
    by (intros E; cbv in E; discriminate E).
  assert (plainValue (FileURLParts.ShareSnapshot ipParts) = true) as Hplain
    by reflexivity.
  assert (∀ k, strings.ToLower k = shareSnapshot →
            (url.ParseQuery (FileURLParts.UnparsedParams ipParts)).1 !! k = None)
    as Hunp.
  { assert ((url.ParseQuery (FileURLParts.UnparsedParams ipParts)).1
            = <["foo" := ["bar"]]> ∅) as -> by (vm_compute; reflexivity).
    intros k Hlow. apply lookup_insert_None. split; [apply lookup_empty|].
    intros <-. discriminate Hlow. }
  assert (∀ k, strings.ToLower k = shareSnapshot →
            (url.ParseQuery (SAS_Encode (FileURLParts.SAS ipParts))).1 !! k
            = None) as Hsas
    by (intros k _; apply lookup_empty).
  split; [exact Hv|]. split; [exact Hplain|]. split; [exact Hunp|].
  split; [exact Hsas|].
  exact (@snapshot_read_back listOrder noSAS ipParts Hv Hplain Hunp Hsas).
Defined.

(** ** Hosts and ports *)

Lemma byteIndex_indexBy (s : string) (c : ascii) :
  net.byteIndex s c = indexBy (isByte c) s.
Proof. induction s as [|x s IH]; [done|]. simpl. by rewrite IH. Qed.

Lemma last_free (s : string) (c : ascii) :
  freeOf (isByte c) s = true → net.last s c = -1.
Proof.
  induction s as [|x s IH]; [done|]. simpl.
  intros [Hx Hs]%andb_true_iff. rewrite (IH Hs). simpl.
  apply negb_true_iff in Hx. unfold isByte in Hx. by rewrite Hx.
Qed.

Lemma last_app (a p : string) (c : ascii) :
  freeOf (isByte c) p = true → net.last (a +:+ String c p) c = len a.
Proof.
  intros Hp. induction a as [|x a IH].
  - rewrite app_empty_l. simpl. rewrite (last_free _ _ Hp). simpl.
    by rewrite bool_decide_eq_true_2.
  - rewrite app_String, len_String. simpl. rewrite IH.
    pose proof (len_nonneg a). by destruct (Z.eqb_spec (len a) (-1)); [lia|].
Qed.

Lemma subFrom_0 (s : string) : subFrom s 0 = s.
Proof.
  unfold subFrom. apply sub_slice.
  pose proof (sliceTo_app s "") as E. by rewrite app_empty_r in E.
Qed.

Lemma slice_middle (a b c : string) :
  slice (a +:+ b +:+ c) (len a) (len a + len b) = Some b.
Proof.
  unfold slice. pose proof (len_nonneg a). pose proof (len_nonneg b).
  pose proof (len_nonneg c).
  rewrite bool_decide_eq_true_2 by (rewrite !len_app; lia).
  replace (len a + len b - len a) with (len b) by lia.
  unfold len. by rewrite !Nat2Z.id, dropBytes_app, takeBytes_app.
Qed.

Lemma free_of_colon (s : string) :
  freeOf colonOrBracket s = true →
  freeOf (isByte ":") s = true ∧ freeOf (isByte "[") s = true
  ∧ freeOf (isByte "]") s = true.
Proof.
  intros Hs. repeat split; (eapply freeOf_weaken; [|exact Hs]);
    intros c Hc%bool_decide_eq_true; subst c; reflexivity.
Qed.

Lemma free_of_bracket (s : string) :
  freeOf isBracket s = true →
  freeOf (isByte "[") s = true ∧ freeOf (isByte "]") s = true.
Proof.
  intros Hs. split; (eapply freeOf_weaken; [|exact Hs]);
    intros c Hc%bool_decide_eq_true; subst c; reflexivity.
Qed.

Lemma at_first (c : ascii) (s t : string) : at' (String c s +:+ t) 0 = c.
Proof. done. Qed.

(** [SplitHostPort] on a host without colon or bracket and a port. *)
Lemma SplitHostPort_host_port (h port : string) :
  freeOf colonOrBracket h = true →
  freeOf colonOrBracket port = true →
  net.SplitHostPort (h +:+ ":" +:+ port) = (h, port, None).
Proof.
  intros (Hhc & Hho & Hhe)%free_of_colon (Hpc & Hpo & Hpe)%free_of_colon.
  change (h +:+ ":" +:+ port) with (h +:+ String ":" port).
  unfold net.SplitHostPort. cbv zeta.
  rewrite (last_app h port ":" Hpc). pose proof (len_nonneg h) as Hlen.
  destruct (Z.ltb_spec (len h) 0) as [|_]; [lia|].
  assert (at' (h +:+ String ":" port) 0 ≠ "["%char) as Hfirst.
  { destruct h as [|c h']; [by rewrite app_empty_l|].
    rewrite at_first. simpl in Hho.
    apply andb_true_iff in Hho as [Hc%negb_true_iff%bool_decide_eq_false _].
    done. }
  rewrite (bool_decide_eq_false_2 _ Hfirst).
  unfold subTo. rewrite (sub_slice _ _ _ _ (sliceTo_app h (String ":" port))).
  rewrite byteIndex_indexBy, (proj2 (indexBy_free _ _) Hhc).
  cbn [Z.leb Z.compare]. rewrite subFrom_0, !byteIndex_indexBy.
  rewrite (proj2 (indexBy_free (isByte "[") _))
    by (by rewrite freeOf_app; simpl; rewrite Hho, Hpo).
  rewrite (proj2 (indexBy_free (isByte "]") _))
    by (by rewrite freeOf_app; simpl; rewrite Hhe, Hpe).
  cbn [Z.leb Z.compare]. unfold subFrom.
  by rewrite (sub_slice _ _ _ _ (sliceFrom_app_1 h port ":")).
Qed.

(** [SplitHostPort] on a bracketed host and a port. *)
Lemma SplitHostPort_bracket_port (h port : string) :
  freeOf isBracket h = true →
  freeOf colonOrBracket port = true →
  net.SplitHostPort ("[" +:+ h +:+ "]:" +:+ port) = (h, port, None).
Proof.
  intros (Hho & Hhe)%free_of_bracket (Hpc & Hpo & Hpe)%free_of_colon.
  set (hostport := "[" +:+ h +:+ "]:" +:+ port).
  pose proof (len_nonneg h) as Hlen. pose proof (len_nonneg port) as Hlenp.
  assert (len hostport = len h + len port + 3) as Hlh.
  { unfold hostport. rewrite !len_app. change (len "[") with 1.
    change (len "]:") with 2. lia. }
  assert (net.last hostport ":" = len h + 2) as Hlast.
  { unfold hostport.
    replace ("[" +:+ h +:+ "]:" +:+ port)
      with (("[" +:+ h +:+ "]") +:+ String ":" port)
      by (by rewrite !app_assoc_s).
    rewrite last_app by done. rewrite !len_app.
    change (len "[") with 1. change (len "]") with 1. lia. }
  assert (net.byteIndex hostport "]" = len h + 1) as Hend.
  { rewrite byteIndex_indexBy. unfold hostport.
    replace ("[" +:+ h +:+ "]:" +:+ port)
      with (("[" +:+ h) +:+ String "]" (String ":" port))
      by (by rewrite !app_assoc_s).
    rewrite indexBy_app; [|by rewrite freeOf_app, Hhe|done].
    rewrite len_app. change (len "[") with 1. lia. }
  assert (sub hostport 1 (len h + 1) = h) as Hhost.
  { apply sub_slice. unfold hostport.
    pose proof (slice_middle "[" h ("]:" +:+ port)) as E.
    change (len "[") with 1 in E. by rewrite (Z.add_comm 1) in E. }
  assert (subFrom hostport 1 = h +:+ "]:" +:+ port) as Hj.
  { unfold subFrom. apply sub_slice.
    exact (sliceFrom_app_1 "" (h +:+ "]:" +:+ port) "["). }
  assert (subFrom hostport (len h + 1 + 1) = String ":" port) as Hk.
  { unfold subFrom. apply sub_slice. unfold hostport.
    replace ("[" +:+ h +:+ "]:" +:+ port)
      with (("[" +:+ h) +:+ String "]" (String ":" port))
      by (by rewrite !app_assoc_s).
    replace (len h + 1) with (len ("[" +:+ h))
      by (rewrite len_app; change (len "[") with 1; lia).
    apply sliceFrom_app_1. }
  assert (subFrom hostport (len h + 2 + 1) = port) as Hport.
  { unfold subFrom. apply sub_slice. unfold hostport.
    replace ("[" +:+ h +:+ "]:" +:+ port)
      with (("[" +:+ h +:+ "]") +:+ String ":" port)
      by (by rewrite !app_assoc_s).
    replace (len h + 2) with (len ("[" +:+ h +:+ "]"))
      by (rewrite !len_app; change (len "[") with 1; change (len "]") with 1;
          lia).
    apply sliceFrom_app_1. }
  unfold net.SplitHostPort. cbv zeta. fold hostport.
  rewrite Hlast, Hend, Hlh, Hhost, Hj, Hk, Hport.
  destruct (Z.ltb_spec (len h + 2) 0) as [|_]; [lia|].
  rewrite (bool_decide_eq_true_2 (at' hostport 0 = "["%char)) by done.
  destruct (Z.ltb_spec (len h + 1) 0) as [|_]; [lia|].
  destruct (Z.eqb_spec (len h + 1 + 1) (len h + len port + 3)) as [|_]; [lia|].
  destruct (Z.eqb_spec (len h + 1 + 1) (len h + 2)) as [_|]; [|lia].
  rewrite !byteIndex_indexBy.
  rewrite (proj2 (indexBy_free (isByte "[") _))
    by (by rewrite !freeOf_app; simpl; rewrite Hho, Hpo).
  rewrite (proj2 (indexBy_free (isByte "]") (String ":" port)))
    by (by simpl; rewrite Hpe).
  done.
Qed.

Lemma ends_with (x a r : string) (c d : ascii) :
  x +:+ String c "" = a +:+ String d r → r ≠ "" →
  ∃ r', r = r' +:+ String c "".
Proof.
  revert x. induction a as [|y a IH]; intros x E Hr.
  - rewrite app_empty_l in E. destruct x as [|x0 x].
    + rewrite app_empty_l in E. injection E as _ E. by subst r.
    + rewrite app_String in E. injection E as _ E. by exists x.
  - rewrite app_String in E. destruct x as [|x0 x].
    + rewrite app_empty_l in E. injection E as _ E.
      destruct a; rewrite ?app_empty_l, ?app_String in E; discriminate.
    + rewrite app_String in E. injection E as _ E. by apply (IH x).
Qed.

(** [SplitHostPort] on a bracketed host without a port: an error, whatever
    is between the brackets. *)
Lemma SplitHostPort_bracket_alone (h : string) :
  (net.SplitHostPort ("[" +:+ h +:+ "]")).2 ≠ None.
Proof.
  set (hostport := "[" +:+ h +:+ "]").
  unfold net.SplitHostPort. cbv beta zeta.
  destruct (net.last hostport ":" <? 0); [done|].
  rewrite (bool_decide_eq_true_2 (at' hostport 0 = "["%char)) by done.
  rewrite !byteIndex_indexBy.
  destruct (cutBy (isByte "]") hostport) as [a [r|]] eqn:E.
  - apply cutBy_Some in E as (c & Hc%bool_decide_eq_true & E & Ha). subst c.
    assert (indexBy (isByte "]") hostport = len a) as ->
      by (by rewrite E, indexBy_app).
    assert (len hostport = len a + 1 + len r) as ->
      by (rewrite E, len_app, len_String; lia).
    assert (subFrom hostport (len a + 1) = r) as ->.
    { unfold subFrom. apply sub_slice. rewrite E. apply sliceFrom_app_1. }
    pose proof (len_nonneg a). pose proof (len_nonneg r).
    destruct (Z.ltb_spec (len a) 0); [done|].
    destruct (Z.eqb_spec (len a + 1) (len a + 1 + len r)) as [|Hr]; [done|].
    destruct (len a + 1 =? _); [|by case_bool_decide].
    destruct (0 <=? _); [done|].
    destruct (ends_with ("[" +:+ h) a r "]" "]") as [r' ->].
    { by rewrite app_assoc_s. }
    { intros ->. apply Hr. change (len "") with 0. lia. }
    destruct (indexBy_bounds (isByte "]") (r' +:+ "]")) as [Hfree|[Hge _]].
    + apply indexBy_free in Hfree. rewrite freeOf_app in Hfree.
      by rewrite andb_false_r in Hfree.
    + by destruct (Z.leb_spec 0 (indexBy (isByte "]") (r' +:+ "]"))); [|lia].
  - apply cutBy_None in E as [_ E%indexBy_free]. by rewrite E.
Qed.

(** Without a colon, [ParseIP] has the dotted decimal form only. *)
Lemma ParseIP_scan_no_colon (s rest : string) :
  freeOf (isByte ":") rest = true →
  net.ParseIP_scan s rest = None ∨ net.ParseIP_scan s rest = net.parseIPv4 s.
Proof.
  induction rest as [|c rest IH]; [by left|]. simpl.
  intros [Hc%negb_true_iff Hrest]%andb_true_iff. unfold isByte in Hc.
  rewrite Hc. destruct (bool_decide (c = "."%char)); [by right|auto].
Qed.

(** The dotted decimal form begins with a digit. *)
Lemma parseIPv4_first (c : ascii) (s : string) :
  byteIn "0" c "9" = false → net.parseIPv4 (String c s) = None.
Proof.
  intros Hc. unfold net.parseIPv4. cbn [net.parseIPv4_loop].
  rewrite len_String. pose proof (len_nonneg s).
  destruct (Z.eqb_spec (len s + 1) 0); [lia|].
  cbn [Z.ltb Z.compare]. unfold net.dtoi. cbn [net.dtoi_loop].
  by rewrite Hc.
Qed.

(** The digits that [dtoi] accepts are a prefix of its input. *)
Lemma dtoi_loop_digits (s : string) (n i n' c : Z) :
  net.dtoi_loop s n i = (n', c, true) →
  ∃ d r, s = d +:+ r ∧ freeOf notDigitOrDot d = true ∧ c = i + len d.
Proof.
  revert n i. induction s as [|x s IH]; intros n i; cbn [net.dtoi_loop].
  - destruct (i =? 0); [done|]. intros [= <- <-]. exists "", "".
    change (len "") with 0. split; [done|]. split; [done|lia].
  - destruct (byteIn "0" x "9") eqn:Hx.
    + destruct (net.big <=? _); [done|].
      intros (d & r & -> & Hd & ->)%IH. exists (String x d), r.
      rewrite app_String, len_String. cbn [freeOf]. unfold notDigitOrDot at 1.
      rewrite Hx, Hd. split; [done|]. split; [done|lia].
    + destruct (i =? 0); [done|]. intros [= <- <-]. exists "", (String x s).
      change (len "") with 0. split; [done|]. split; [done|lia].
Qed.

(** What [parseIPv4] accepts is made of digits and dots. *)
Lemma parseIPv4_loop_digits (todo : nat) (i : Z) (s : string) (p : list Z)
  (ip : net.IP) :
  net.parseIPv4_loop todo i s p = Some ip → freeOf notDigitOrDot s = true.
Proof.
  revert i s p.
  induction todo as [|todo IH]; intros i s p; cbn [net.parseIPv4_loop].
  - destruct (Z.eqb_spec (len s) 0) as [E|]; [|done]. intros _.
    destruct s; [done|]. rewrite len_String in E.
    pose proof (len_nonneg s). lia.
  - destruct (len s =? 0); [done|].
    assert (∀ s1,
      (let '(n, c, ok) := net.dtoi s1 in
       if negb ok || (0xFF <? n) then None
       else net.parseIPv4_loop todo (i + 1) (subFrom s1 c) (net.setByte p i n))
      = Some ip → freeOf notDigitOrDot s1 = true) as Hstep.
    { intros s1. destruct (net.dtoi s1) as [[n c] ok] eqn:E.
      destruct ok; [|done]. cbn [negb orb]. destruct (0xFF <? n); [done|].
      intros Hrec%IH. unfold net.dtoi in E.
      apply dtoi_loop_digits in E as (d & r & -> & Hd & ->).
      rewrite Z.add_0_l in Hrec. unfold subFrom in Hrec.
      rewrite (sub_slice _ _ _ _ (sliceFrom_app d r)) in Hrec.
      by rewrite freeOf_app, Hd, Hrec. }
    destruct (0 <? i); [|apply Hstep].
    destruct (decide (at' s 0 = "."%char)) as [Hdot|Hdot].
    + rewrite (bool_decide_eq_true_2 _ Hdot). cbn [negb].
      destruct s as [|x s]; [done|]. change (at' (String x s) 0) with x in Hdot.
      subst x. unfold subFrom.
      rewrite (sub_slice _ _ _ _ (sliceFrom_String_1 "." s)).
      intros Hs%Hstep. cbn [freeOf]. by rewrite Hs.
    + by rewrite (bool_decide_eq_false_2 _ Hdot).
Qed.

(** [ParseIP] on a text without colon that has a byte other than a digit
    or a dot. *)
Lemma ParseIP_no_colon (s : string) :
  freeOf (isByte ":") s = true → freeOf notDigitOrDot s = false →
  net.ParseIP s = None.
Proof.
  intros Hcolon Hname. unfold net.ParseIP.
  destruct (ParseIP_scan_no_colon s s Hcolon) as [->| ->]; [done|].
  destruct (net.parseIPv4 s) as [ip|] eqn:E; [|done].
  apply parseIPv4_loop_digits in E. congruence.
Qed.

Lemma Index_colon_app (a b : string) :
  (strings.Index (a +:+ String ":" b) ":" =? -1) = false.
Proof.
  rewrite Index_byte. apply Z.eqb_neq. intros E%indexBy_free.
  rewrite freeOf_app in E. by rewrite andb_false_r in E.
Qed.

(** X13: The port is split off and not read: a host without colon or
    bracket, followed by a colon and any port text without colon or
    bracket, is of the style of the host alone. *)
Theorem port_is_not_read (u : url.URL) (h port : string) :
  freeOf colonOrBracket h = true →
  freeOf colonOrBracket port = true →
  isIPEndpointStyle (withHost (h +:+ ":" +:+ port) u)
  = isIPEndpointStyle (withHost h u).
Proof.
  intros Hh Hport. unfold isIPEndpointStyle. cbn [url.Host withHost].
  change (h +:+ ":" +:+ port) with (h +:+ String ":" port).
  rewrite Index_colon_app. cbn [negb].
  change (h +:+ String ":" port) with (h +:+ ":" +:+ port).
  rewrite (SplitHostPort_host_port h port Hh Hport).
  apply free_of_colon in Hh as (Hh & _ & _).
  rewrite Index_byte. apply indexBy_free in Hh. by rewrite Hh.
Qed.

(** X14: The brackets come off with the port: what is between them, and
    nothing else, is given to [ParseIP]. *)
Theorem bracketed_host_with_port (u : url.URL) (h port : string) :
  freeOf isBracket h = true →
  freeOf colonOrBracket port = true →
  isIPEndpointStyle (withHost ("[" +:+ h +:+ "]:" +:+ port) u)
  = bool_decide (net.ParseIP h ≠ None).
Proof.
  intros Hh Hport. unfold isIPEndpointStyle. cbn [url.Host withHost].
  replace ("[" +:+ h +:+ "]:" +:+ port)
    with (("[" +:+ h +:+ "]") +:+ String ":" port) at 1
    by (by rewrite !app_assoc_s).
  rewrite Index_colon_app. cbn [negb].
  rewrite (SplitHostPort_bracket_port h port Hh Hport).
  by rewrite bool_decide_eq_true_2.
Qed.

(** X15: A host in brackets without a port is never of the IP-endpoint
    style, whatever is between the brackets: with a colon inside,
    [SplitHostPort] fails on the missing port; without one, [ParseIP]
    is given the brackets. *)
Theorem bracketed_host_without_port (u : url.URL) (h : string) :
  isIPEndpointStyle (withHost ("[" +:+ h +:+ "]") u) = false.
Proof.
  unfold isIPEndpointStyle. cbn [url.Host withHost]. rewrite Index_byte.
  destruct (Z.eqb_spec (indexBy (isByte ":") ("[" +:+ h +:+ "]")) (-1))
    as [Hfree%indexBy_free|_]; cbn [negb].
  - rewrite bool_decide_eq_true_2 by done. cbn [andb].
    apply bool_decide_eq_false. intros Hip. apply Hip.
    unfold net.ParseIP.
    destruct (ParseIP_scan_no_colon ("[" +:+ h +:+ "]") _ Hfree) as [->| ->];
      [done|].
    rewrite app_String, app_empty_l. by apply parseIPv4_first.
  - pose proof (SplitHostPort_bracket_alone h) as Herr.
    destruct (net.SplitHostPort ("[" +:+ h +:+ "]")) as [[h' port] err].
    cbn [snd] in Herr. by rewrite (bool_decide_eq_false_2 _ Herr).
Qed.

(** X16: A host without colon that has a byte other than a digit or a
    dot is a host name: never of the IP-endpoint style. *)
Theorem host_name_is_not_ip_style (u : url.URL) :
  freeOf (isByte ":") (url.Host u) = true →
  freeOf notDigitOrDot (url.Host u) = false →
  isIPEndpointStyle u = false.
Proof.
  intros Hcolon Hname. unfold isIPEndpointStyle.
  rewrite Index_byte. apply indexBy_free in Hcolon as Hindex.
  rewrite Hindex. change (-1 =? -1) with true. cbn [negb].
  rewrite (ParseIP_no_colon _ Hcolon Hname).
  rewrite bool_decide_eq_true_2 by done. cbn [andb].
  by apply bool_decide_eq_false; intros Hip.
Qed.

Lemma port_is_not_read_witness :
  freeOf colonOrBracket "10.0.0.1" = true
  ∧ freeOf colonOrBracket "http" = true
  ∧ isIPEndpointStyle (withHost ("10.0.0.1" +:+ ":" +:+ "http") ipURL)
    = isIPEndpointStyle (withHost "10.0.0.1" ipURL).
Proof.
  split; [reflexivity|]. split; [reflexivity|].
  apply (port_is_not_read ipURL "10.0.0.1" "http"); reflexivity.
Defined.

Lemma bracketed_host_with_port_witness :
  freeOf isBracket "::1" = true
  ∧ freeOf colonOrBracket "8080" = true
  ∧ isIPEndpointStyle (withHost ("[" +:+ "::1" +:+ "]:" +:+ "8080") ipURL)
    = bool_decide (net.ParseIP "::1" ≠ None).
Proof.
  split; [reflexivity|]. split; [reflexivity|].
  apply (bracketed_host_with_port ipURL "::1" "8080"); reflexivity.
Defined.

Lemma host_name_is_not_ip_style_witness :
  freeOf (isByte ":") (url.Host namedURL) = true
  ∧ freeOf notDigitOrDot (url.Host namedURL) = false
  ∧ isIPEndpointStyle namedURL = false.
Proof.
  split; [reflexivity|]. split; [reflexivity|].
  apply (host_name_is_not_ip_style namedURL); reflexivity.
Defined.

(** ** The standard library's model on examples *)

Example ParseQuery_ex :
  url.ParseQuery "ShareSnapshot=2020-01-01T00:00:00Z&foo=bar&foo=b%20z&x;y=+1&bad=%zz" =
  ({[ "ShareSnapshot" := ["2020-01-01T00:00:00Z"]; "foo" := ["bar"; "b z"];
      "x" := [""]; "y" := [" 1"] ]}, true).
Proof. vm_compute. reflexivity. Qed.
Example Encode_ex :
  @url.Encode listOrder {[ "foo" := ["bar"; "b z&"]; "ShareSnapshot" := ["2020-01-01T00:00:00Z"]; "" := [""] ]} = "=&ShareSnapshot=2020-01-01T00%3A00%3A00Z&foo=bar&foo=b+z%26".
Proof. vm_compute. reflexivity. Qed.
Example SplitHostPort_ex1 :
  net.SplitHostPort "10.0.0.1:443" = ("10.0.0.1", "443", None).
Proof. reflexivity. Qed.
Example SplitHostPort_ex2 :
  net.SplitHostPort "[::1]:8080" = ("::1", "8080", None).
Proof. reflexivity. Qed.
Example SplitHostPort_ex3 :
  net.SplitHostPort "[::1]" = ("", "", Some "missing port in address").
Proof. reflexivity. Qed.
Example SplitHostPort_ex4 :
  net.SplitHostPort "::1" = ("", "", Some "too many colons in address").
Proof. reflexivity. Qed.
Example Index_ex : strings.Index "ab/cd/e" "/" = 2 /\ strings.Index "abc" "/" = -1
  /\ strings.ToLower "ShareSnapshot" = "sharesnapshot".
Proof. repeat split. Qed.
Example ParseIP_ex :
  net.ParseIP "10.0.0.1" = Some [0;0;0;0;0;0;0;0;0;0;255;255;10;0;0;1]
  /\ net.ParseIP "::1" = Some [0;0;0;0;0;0;0;0;0;0;0;0;0;0;0;1]
  /\ net.ParseIP "2001:db8::68" = Some [32;1;13;184;0;0;0;0;0;0;0;0;0;0;0;104]
  /\ net.ParseIP "::ffff:1.2.3.4" = Some [0;0;0;0;0;0;0;0;0;0;255;255;1;2;3;4]
  /\ net.ParseIP "1:2:3:4:5:6:7:8" = Some [0;1;0;2;0;3;0;4;0;5;0;6;0;7;0;8]
  /\ net.ParseIP "1:2:3:4:5:6:7::" = Some [0;1;0;2;0;3;0;4;0;5;0;6;0;7;0;0]
  /\ net.ParseIP "1:2:3:4:5:6:7:8::" = None
  /\ net.ParseIP "1:2:3:4:5:6:7:8:9" = None
  /\ net.ParseIP "[::1]" = None
  /\ net.ParseIP "1.2.3" = None
  /\ net.ParseIP "256.0.0.1" = None
  /\ net.ParseIP "account.service.example.com" = None
  /\ net.ParseIP "localhost" = None.
Proof. vm_compute. repeat split. Qed.
